(** * im-not-a-reader: click resolution, sentence segmentation and playback
      sessions

    A shallow embedding of the parts of the browser extension that decide
    where reading starts and how a reading session evolves:

    - [ClickHandler]       (click handler script: [splitIntoSentences],
                            [extractTextFromClick]);
    - [AudioSession]       (src/lib/models/AudioSession.js);
    - [SpeechController]   (src/background/speech-controller.js);
    - [TextExtractor]      (src/content/text-extractor.js,
                            [_calculateContentScore]).

    Conventions of the model.
    - A JavaScript string is the list of its code units; the development
      covers code units below 256, so a code unit is an [ascii].
    - Word and character positions are integers ([Z]) or naturals where the
      source can only produce a length or an index.
    - A JavaScript number that holds a speed, a volume or a score is a
      rational ([Q]) or [NaN]: comparisons are exact, rounding of the
      arithmetic is not modelled.
    - Objects that are shared by reference (sessions held both by the
      registry map and by utterance callbacks) live in a store indexed by
      object references.
    - Calls into the external speech engine are collected as a trace; the
      flags read from it and the clock are inputs. *)

From Stdlib Require Import ZArith QArith Qminmax List Ascii String Bool Lia.
From Stdlib Require Import Sorted.
From stdpp Require Import gmap strings list.
Import ListNotations.

(** ** JavaScript strings *)

Module Js.

Definition jsstring := list ascii.

(** A string literal of the source, as a list of code units. *)
Definition lit (s : string) : jsstring := list_ascii_of_string s.

(** White space in the sense of [String.prototype.trim] and of the regular
    expression class [\s], restricted to code units below 256: TAB, LF, VT,
    FF, CR, SPACE and NBSP. *)
Definition isWhiteSpace (c : ascii) : bool :=
  let n := nat_of_ascii c in
  ((9 <=? n)%nat && (n <=? 13)%nat) || (n =? 32)%nat || (n =? 160)%nat.

(** The regular expression class [\w]: letters, digits and underscore. *)
Definition isWordChar (c : ascii) : bool :=
  let n := nat_of_ascii c in
  ((48 <=? n)%nat && (n <=? 57)%nat)
  || ((65 <=? n)%nat && (n <=? 90)%nat)
  || ((97 <=? n)%nat && (n <=? 122)%nat)
  || (n =? 95)%nat.

Fixpoint trimStart (s : jsstring) : jsstring :=
  match s with
  | [] => []
  | c :: r => if isWhiteSpace c then trimStart r else s
  end.

Definition trimEnd (s : jsstring) : jsstring := rev (trimStart (rev s)).

Definition trim (s : jsstring) : jsstring := trimEnd (trimStart s).

(** [s.substring(a, b)]: both indices are clamped to the length and swapped
    when out of order. *)
Definition substring (s : jsstring) (a b : nat) : jsstring :=
  let a' := Nat.min a (length s) in
  let b' := Nat.min b (length s) in
  firstn (Nat.max a' b' - Nat.min a' b') (skipn (Nat.min a' b') s).

(** [s.substring(a)] *)
Definition substringFrom (s : jsstring) (a : nat) : jsstring :=
  substring s a (length s).

Fixpoint startsWith (s sub : jsstring) : bool :=
  match sub, s with
  | [], _ => true
  | _ :: _, [] => false
  | c :: sub', d :: s' => Ascii.eqb c d && startsWith s' sub'
  end.


Definition eqb (s t : jsstring) : bool := bool_decide (s = t).

(** [parts.join(sep)] *)
Fixpoint join (sep : jsstring) (parts : list jsstring) : jsstring :=
  match parts with
  | [] => []
  | [p] => p
  | p :: ps => p ++ sep ++ join sep ps
  end.

(** [s.split(/\s+/)]: the pieces between maximal runs of white space.  The
    result always has at least one element; a leading or trailing run gives
    an empty first or last piece. *)
Fixpoint splitWs_aux (s : jsstring) (cur : jsstring) (inRun : bool)
  : list jsstring :=
  match s with
  | [] => [rev cur]
  | c :: r =>
      if isWhiteSpace c then
        if inRun then splitWs_aux r cur true
        else rev cur :: splitWs_aux r [] true
      else splitWs_aux r (c :: cur) false
  end.

Definition splitWs (s : jsstring) : list jsstring := splitWs_aux s [] false.

(** Truthiness of a string value: only the empty string is falsy. *)
Definition truthy (s : jsstring) : bool :=
  match s with [] => false | _ => true end.

End Js.

Import Js.

(** ** The click handler *)

Module ClickHandler.

(** A sentence span [{text, start, end}]. *)
Record Sentence := mkSentence {
  text : jsstring;
  start : nat;
  end_ : nat
}.

(** The character class of [/[.!?]+/g]. *)
Definition isTerminal (c : ascii) : bool :=
  Ascii.eqb c "."%char || Ascii.eqb c "!"%char || Ascii.eqb c "?"%char.

(** A successful [RegExp.prototype.exec]: [match.index] and [match[0]]. *)
Record Match := mkMatch {
  index : nat;
  matched : jsstring
}.

(** Position of the first terminal character of [s], counted from [i]. *)
Fixpoint search (s : jsstring) (i : nat) : option nat :=
  match s with
  | [] => None
  | c :: r => if isTerminal c then Some i else search r (S i)
  end.

(** The greedy [+]: the longest prefix made of terminal characters. *)
Fixpoint greedy (s : jsstring) : jsstring :=
  match s with
  | [] => []
  | c :: r => if isTerminal c then c :: greedy r else []
  end.

(** [sentenceRegex.exec(text)] for the global expression [/[.!?]+/g] whose
    [lastIndex] is [lastIndex]: the leftmost match at or after [lastIndex],
    together with the new [lastIndex] (the end of the match, or 0 when there
    is none). *)
Definition exec (text : jsstring) (lastIndex : nat) : option Match * nat :=
  if (length text <? lastIndex)%nat then (None, 0)
  else
    match search (skipn lastIndex text) lastIndex with
    | None => (None, 0)
    | Some i =>
        let m := greedy (skipn i text) in
        (Some (mkMatch i m), i + length m)
    end.

(** The [while ((match = sentenceRegex.exec(text)) !== null)] loop of
    [splitIntoSentences].  The state is the regular expression's
    [lastIndex], the variable [lastEnd] and the array [sentences]; the
    result is [None] only when the iteration bound is used up. *)
Fixpoint splitLoop (fuel : nat) (text : jsstring) (lastIndex lastEnd : nat)
    (sentences : list Sentence) : option (list Sentence * nat) :=
  match fuel with
  | O => None
  | S fuel' =>
      match exec text lastIndex with
      | (None, _) => Some (sentences, lastEnd)
      | (Some m, lastIndex') =>
          let stop := index m + length (matched m) in
          let sentenceText := trim (substring text lastEnd stop) in
          let sentences' :=
            if (0 <? length sentenceText)%nat
            then sentences ++ [mkSentence sentenceText lastEnd stop]
            else sentences in
          splitLoop fuel' text lastIndex' stop sentences'
      end
  end.

(** The code after the loop: the text that follows the last match. *)
Definition splitTail (text : jsstring) (lastEnd : nat)
    (sentences : list Sentence) : list Sentence :=
  if (lastEnd <? length text)%nat then
    let remainingText := trim (substringFrom text lastEnd) in
    if (0 <? length remainingText)%nat
    then sentences ++ [mkSentence remainingText lastEnd (length text)]
    else sentences
  else sentences.

(** [splitIntoSentences(text)] on a string argument, with an explicit
    iteration bound. *)
Definition splitIntoSentencesWithin (fuel : nat) (text : jsstring)
  : option (list Sentence) :=
  if negb (truthy text) then Some []
  else
    match splitLoop fuel text 0 0 [] with
    | None => None
    | Some (sentences, lastEnd) => Some (splitTail text lastEnd sentences)
    end.

(** Every match consumes at least one character, so [length text + 1]
    iterations are enough (see [splitIntoSentences_terminates]). *)
Definition splitIntoSentences (text : jsstring) : list Sentence :=
  default [] (splitIntoSentencesWithin (S (length text)) text).

(** *** Resolving a click against the article *)

(** The element stored as [clickedElement]: the event target or
    [document.body]. *)
Inductive Element := EventTarget | DocumentBody.








(** *** Finding the clicked sentence *)

(** The [for (let sentence of sentences)] loop of
    [getClickedSentenceText]: the first sentence whose span holds the
    offset. *)
Fixpoint sentenceAt (sentences : list Sentence) (clickOffset : nat)
  : option Sentence :=
  match sentences with
  | [] => None
  | sentence :: rest =>
      if (start sentence <=? clickOffset)%nat
         && (clickOffset <? end_ sentence)%nat
      then Some sentence
      else sentenceAt rest clickOffset
  end.

(** A text node of the page: its identity and its [textContent]. *)
Record TextNode := mkTextNode {
  nodeId : nat;
  textContent : jsstring
}.

(** The [while (node = walker.nextNode())] loop of [getTextOffset];
    [nodes] are the text nodes the tree walker has still to visit. *)
Fixpoint getTextOffset_loop (nodes : list TextNode) (textNode : nat)
    (offset textOffset : nat) : nat :=
  match nodes with
  | [] => textOffset
  | node :: rest =>
      if (nodeId node =? textNode)%nat then textOffset + offset
      else getTextOffset_loop rest textNode offset
             (textOffset + length (textContent node))
  end.

(** [getTextOffset(container, textNode, offset)]; [nodes] are the text
    nodes below [container] in document order. *)
Definition getTextOffset (nodes : list TextNode) (textNode : nat)
    (offset : nat) : nat :=
  getTextOffset_loop nodes textNode offset 0.

(** [getClickedSentenceText(event)].  [range] is the caret range under the
    click (its [startContainer] and [startOffset], [None] when the platform
    gives none) and [paragraph] the element the two [while] loops stop at,
    given by its text nodes ([None] when they run off the tree); both are
    found by walking the page's DOM.  The [textContent] of an element is
    the concatenation of its text nodes. *)
Definition getClickedSentenceText (range : option (nat * nat))
    (paragraph : option (list TextNode)) : option jsstring :=
  match range with
  | None => None
  | Some (startContainer, startOffset) =>
      match paragraph with
      | None => None
      | Some nodes =>
          let paragraphText := concat (map textContent nodes) in
          let clickOffset := getTextOffset nodes startContainer startOffset in
          text <$> sentenceAt (splitIntoSentences paragraphText) clickOffset
      end
  end.

(** Spans that follow one another from [off] without gap or overlap and
    end at or before [limit]. *)
Fixpoint Contiguous (off limit : nat) (l : list Sentence) : Prop :=
  match l with
  | [] => True
  | s :: rest =>
      start s = off /\ (off < end_ s)%nat /\ (end_ s <= limit)%nat
      /\ Contiguous (end_ s) limit rest
  end.

(** The end of the last span of [l], or [off] when there is none. *)
Fixpoint lastEnd (off : nat) (l : list Sentence) : nat :=
  match l with
  | [] => off
  | s :: rest => lastEnd (end_ s) rest
  end.


(** *** The sentence under a clicked element *)

(** [s.indexOf(sub)]: the first position at which [sub] occurs in [s];
    [None] is [-1]. *)
Fixpoint indexOf (s sub : jsstring) : option nat :=
  if startsWith s sub then Some 0%nat
  else
    match s with
    | [] => None
    | _ :: r => S <$> indexOf r sub
    end.

(** The sentence loop that [extractTextFromElement] repeats inline: the
    loop and the trailing-text code of [splitIntoSentences], without the
    test of the argument. *)
Definition sentenceSpans (fullText : jsstring) : list Sentence :=
  match splitLoop (S (length fullText)) fullText 0 0 [] with
  | None => []
  | Some (sentences, lastEnd) => splitTail fullText lastEnd sentences
  end.

(** [extractTextFromElement(element)].  [textContainer] is the
    [textContent] of the element the first [while] loop stops at ([None]
    when it runs off the tree) and [clickedText] the value of
    [element.textContent || element.innerText || '']; both are read from
    the page's DOM. *)
Definition extractTextFromElement (textContainer : option jsstring)
    (clickedText : jsstring) : jsstring :=
  match textContainer with
  | None => []
  | Some fullText =>
      if negb (truthy (trim clickedText)) then fullText
      else
        match indexOf fullText (trim clickedText) with
        | None => fullText
        | Some clickPosition =>
            let sentences := sentenceSpans fullText in
            match sentenceAt sentences clickPosition with
            | Some sentence => text sentence
            | None =>
                match sentences with
                | first :: _ => text first
                | [] => fullText
                end
            end
        end
  end.

(** *** Reading the result of a resolution *)



(** *** The segmentation as the specification words it

    [Segmented off s l]: [l] are the sentences of the text [s] that starts
    at offset [off].  A maximal run of terminal characters ends a sentence
    whose text is the trimmed span from the previous boundary through the
    run; text after the last run is a final sentence unless it is blank. *)

Definition headNotTerminal (s : jsstring) : Prop :=
  match s with
  | [] => True
  | c :: _ => isTerminal c = false
  end.

Inductive Segmented : nat -> jsstring -> list Sentence -> Prop :=
| Seg_blank off tail :
    Forall (fun c => isTerminal c = false) tail ->
    trim tail = [] ->
    Segmented off tail []
| Seg_tail off tail :
    Forall (fun c => isTerminal c = false) tail ->
    trim tail <> [] ->
    Segmented off tail [mkSentence (trim tail) off (off + length tail)]
| Seg_run off body run rest l :
    Forall (fun c => isTerminal c = false) body ->
    run <> [] ->
    Forall (fun c => isTerminal c = true) run ->
    headNotTerminal rest ->
    Segmented (off + length (body ++ run)) rest l ->
    Segmented off (body ++ run ++ rest)
      (mkSentence (trim (body ++ run)) off (off + length (body ++ run)) :: l).

(** The loop followed by the code after it. *)
Definition finish (text : jsstring) (r : option (list Sentence * nat))
  : option (list Sentence) :=
  match r with
  | Some (sentences, lastEnd) => Some (splitTail text lastEnd sentences)
  | None => None
  end.

End ClickHandler.


(** ** Numbers and errors *)

(** A JavaScript number used as a speed or a volume. *)
Inductive number :=
| Num (q : Q)
| NaN.

Definition Qltb (a b : Q) : bool := negb (Qle_bool b a).

(** [x < y] and [x > y] on numbers: a comparison with [NaN] is false. *)
Definition num_lt (x : number) (y : Q) : bool :=
  match x with Num q => Qltb q y | NaN => false end.

Definition num_gt (x : number) (y : Q) : bool :=
  match x with Num q => Qltb y q | NaN => false end.

(** Truthiness of a number: [0] and [NaN] are falsy. *)
Definition num_truthy (x : number) : bool :=
  match x with Num q => negb (Qeq_bool q 0) | NaN => false end.

(** The exceptions of the two modules.  [Error] is the built-in class with
    its message; [TextProcessingError] carries its [originalError]. *)
#[warnings="-register-all"]
Inductive Error :=
| GenericError (message : string)
| SpeechNotSupportedError
| VoiceNotAvailableError (language : option string)
| TextProcessingError (message : string) (originalError : option Error)
| SessionLimitError (limit : nat)
| SessionNotFoundError (sessionId : string).

Inductive result (A : Type) :=
| Ok (a : A)
| Throw (e : Error).
Arguments Ok {A} a.
Arguments Throw {A} e.

(** ** AudioSession *)

Module AudioSession.

Record t := mk {
  sessionId : string;
  contentId : string;
  pageUrl : string;
  tabId : Z;
  text : jsstring;
  words : list jsstring;
  totalWords : Z;
  currentPosition : Z;
  isPlaying : bool;
  isPaused : bool;
  speed : Q;
  volume : Q;
  createdAt : Z;
  lastActiveAt : Z
}.

(** The argument object of the constructor; [None] is [undefined]. *)
Record Args := mkArgs {
  a_contentId : option string;
  a_pageUrl : option string;
  a_text : option jsstring;
  a_startWordIndex : option Z;
  a_speed : option number;
  a_volume : option number;
  a_tabId : option Z
}.

(** [!s] for an optional string: [undefined] and the empty string. *)
Definition missing (s : option string) : bool :=
  match s with
  | None => true
  | Some s' => bool_decide (s' = EmptyString)
  end.

Definition nonEmpty (w : jsstring) : bool := (0 <? length w)%nat.

(** [_extractWords(text)] *)
Definition _extractWords (text : jsstring) : list jsstring :=
  if negb (truthy text) then []
  else
    List.filter nonEmpty
      (map (List.filter (fun c => isWordChar c || isWhiteSpace c))
         (List.filter nonEmpty (map trim (splitWs text)))).

(** [_validateSpeed(speed)]; [parseFloat] of a number is that number. *)
Definition _validateSpeed (speed : number) : result Q :=
  match speed with
  | NaN => Throw (GenericError "Speed must be a number")
  | Num numSpeed =>
      if Qltb numSpeed (1#2) || Qltb (2#1) numSpeed
      then Throw (GenericError "Speed must be between 0.5 and 2.0")
      else Ok numSpeed
  end.

(** [_validateVolume(volume)] *)
Definition _validateVolume (volume : number) : result Q :=
  match volume with
  | NaN => Throw (GenericError "Volume must be a number")
  | Num numVolume =>
      if Qltb numVolume 0 || Qltb 1 numVolume
      then Throw (GenericError "Volume must be between 0.0 and 1.0")
      else Ok numVolume
  end.

(** [Math.max(0, Math.min(position, totalWords - 1))] *)
Definition clampPosition (position totalWords : Z) : Z :=
  Z.max 0 (Z.min position (totalWords - 1)).

(** [new AudioSession({...})]; [newId] is the value of
    [_generateSessionId()] and [now] the clock. *)
Definition construct (newId : string) (now : Z) (a : Args) : result t :=
  if missing (a_contentId a) then Throw (GenericError "contentId is required")
  else if missing (a_pageUrl a) then Throw (GenericError "pageUrl is required")
  else if negb (truthy (default [] (a_text a)))
    then Throw (GenericError "text is required")
  else
    match a_tabId a with
    | None => Throw (GenericError "tabId is required")
    | Some tab =>
        let text := default [] (a_text a) in
        let words := _extractWords text in
        let totalWords := Z.of_nat (length words) in
        let currentPosition :=
          clampPosition (default 0%Z (a_startWordIndex a)) totalWords in
        match _validateSpeed (default (Num 1) (a_speed a)) with
        | Throw e => Throw e
        | Ok speed =>
            match _validateVolume (default (Num 1) (a_volume a)) with
            | Throw e => Throw e
            | Ok volume =>
                Ok (mk newId (default EmptyString (a_contentId a))
                      (default EmptyString (a_pageUrl a)) tab text words
                      totalWords currentPosition false false speed volume
                      now now)
            end
        end
    end.

(** The argument object of [updateState]; [None] is [undefined]. *)
Record Update := mkUpdate {
  u_isPlaying : option bool;
  u_isPaused : option bool;
  u_currentPosition : option Z;
  u_speed : option number;
  u_volume : option number
}.

Definition set_isPlaying (b : bool) (s : t) : t :=
  mk (sessionId s) (contentId s) (pageUrl s) (tabId s) (text s) (words s)
     (totalWords s) (currentPosition s) b (isPaused s) (speed s) (volume s)
     (createdAt s) (lastActiveAt s).

Definition set_isPaused (b : bool) (s : t) : t :=
  mk (sessionId s) (contentId s) (pageUrl s) (tabId s) (text s) (words s)
     (totalWords s) (currentPosition s) (isPlaying s) b (speed s) (volume s)
     (createdAt s) (lastActiveAt s).

Definition set_currentPosition (p : Z) (s : t) : t :=
  mk (sessionId s) (contentId s) (pageUrl s) (tabId s) (text s) (words s)
     (totalWords s) p (isPlaying s) (isPaused s) (speed s) (volume s)
     (createdAt s) (lastActiveAt s).

Definition set_speed (q : Q) (s : t) : t :=
  mk (sessionId s) (contentId s) (pageUrl s) (tabId s) (text s) (words s)
     (totalWords s) (currentPosition s) (isPlaying s) (isPaused s) q
     (volume s) (createdAt s) (lastActiveAt s).

Definition set_volume (q : Q) (s : t) : t :=
  mk (sessionId s) (contentId s) (pageUrl s) (tabId s) (text s) (words s)
     (totalWords s) (currentPosition s) (isPlaying s) (isPaused s) (speed s)
     q (createdAt s) (lastActiveAt s).

Definition set_lastActiveAt (now : Z) (s : t) : t :=
  mk (sessionId s) (contentId s) (pageUrl s) (tabId s) (text s) (words s)
     (totalWords s) (currentPosition s) (isPlaying s) (isPaused s) (speed s)
     (volume s) (createdAt s) now.

Definition assign {A} (f : A -> t -> t) (o : option A) (s : t) : t :=
  match o with Some a => f a s | None => s end.

(** [updateState({...})].  The object is modified field by field, so an
    exception of a validator leaves the assignments made before it: the
    session after the call is returned in both cases. *)
Definition updateState (now : Z) (u : Update) (s : t) : result unit * t :=
  let s1 := assign set_isPlaying (u_isPlaying u) s in
  let s2 := assign set_isPaused (u_isPaused u) s1 in
  let s3 :=
    assign (fun p s' => set_currentPosition (clampPosition p (totalWords s')) s')
      (u_currentPosition u) s2 in
  match
    match u_speed u with
    | None => Ok s3
    | Some v =>
        match _validateSpeed v with
        | Ok q => Ok (set_speed q s3)
        | Throw e => Throw e
        end
    end
  with
  | Throw e => (Throw e, s3)
  | Ok s4 =>
      match
        match u_volume u with
        | None => Ok s4
        | Some v =>
            match _validateVolume v with
            | Ok q => Ok (set_volume q s4)
            | Throw e => Throw e
            end
        end
      with
      | Throw e => (Throw e, s4)
      | Ok s5 => (Ok tt, set_lastActiveAt now s5)
      end
  end.

(** [words.slice(k)] for an integer [k]: a negative [k] counts from the
    end. *)
Definition slice {A} (l : list A) (k : Z) : list A :=
  if (k <? 0)%Z
  then skipn (Z.to_nat (Z.max 0 (Z.of_nat (length l) + k))) l
  else skipn (Z.to_nat k) l.

(** [getRemainingText()] *)
Definition getRemainingText (s : t) : jsstring :=
  if (Z.of_nat (length (words s)) <=? currentPosition s)%Z then []
  else join (lit " ") (slice (words s) (currentPosition s)).

(** [isComplete()] *)
Definition isComplete (s : t) : bool :=
  (totalWords s <=? currentPosition s)%Z.

(** [getCurrentWord()]; [None] is [null]. *)
Definition getCurrentWord (s : t) : option jsstring :=
  if (0 <=? currentPosition s)%Z
     && (currentPosition s <? Z.of_nat (length (words s)))%Z
  then words s !! Z.to_nat (currentPosition s)
  else None.

(** *** Storage and transmission *)

(** The plain object of [toJSON] and [fromJSON]; [None] is a missing
    property.  The three properties that [fromJSON] assigns as they are
    ([sessionId] and the two dates) are present. *)
Record Json := mkJson {
  j_sessionId : string;
  j_contentId : option string;
  j_pageUrl : option string;
  j_tabId : option Z;
  j_text : option jsstring;
  j_currentPosition : option Z;
  j_totalWords : option Z;
  j_isPlaying : option bool;
  j_isPaused : option bool;
  j_speed : option number;
  j_volume : option number;
  j_createdAt : Z;
  j_lastActiveAt : Z
}.

(** [toJSON()]: the object has no [text] property. *)
Definition toJSON (s : t) : Json :=
  mkJson (sessionId s) (Some (contentId s)) (Some (pageUrl s))
    (Some (tabId s)) None (Some (currentPosition s)) (Some (totalWords s))
    (Some (isPlaying s)) (Some (isPaused s)) (Some (Num (speed s)))
    (Some (Num (volume s))) (createdAt s) (lastActiveAt s).

(** [x || d] on an optional number. *)
Definition numberOr (x : option number) (d : number) : number :=
  match x with
  | Some n => if num_truthy n then n else d
  | None => d
  end.

(** [AudioSession.fromJSON(data)] *)
Definition fromJSON (newId : string) (now : Z) (data : Json) : result t :=
  match
    construct newId now
      (mkArgs (j_contentId data) (j_pageUrl data)
         (Some (default [] (j_text data)))
         (Some (default 0%Z (j_currentPosition data)))
         (Some (numberOr (j_speed data) (Num 1)))
         (Some (numberOr (j_volume data) (Num 1)))
         (j_tabId data))
  with
  | Throw e => Throw e
  | Ok session =>
      Ok (mk (j_sessionId data) (contentId session) (pageUrl session)
            (tabId session) (text session) (words session)
            (totalWords session) (currentPosition session)
            (default false (j_isPlaying data))
            (default false (j_isPaused data))
            (speed session) (volume session)
            (j_createdAt data) (j_lastActiveAt data))
  end.

(** A stored object to which the text has been added. *)
Definition withText (text : jsstring) (data : Json) : Json :=
  mkJson (j_sessionId data) (j_contentId data) (j_pageUrl data)
    (j_tabId data) (Some text) (j_currentPosition data) (j_totalWords data)
    (j_isPlaying data) (j_isPaused data) (j_speed data) (j_volume data)
    (j_createdAt data) (j_lastActiveAt data).

(** What the constructor establishes and [updateState] keeps. *)
Definition consistent (s : t) : Prop :=
  words s = _extractWords (text s)
  /\ totalWords s = Z.of_nat (length (words s))
  /\ truthy (text s) = true
  /\ missing (Some (contentId s)) = false
  /\ missing (Some (pageUrl s)) = false
  /\ _validateSpeed (Num (speed s)) = Ok (speed s)
  /\ _validateVolume (Num (volume s)) = Ok (volume s).

(** *** Histories of a session *)

(** A sequence of [updateState] calls, each with its clock value; a call
    that throws keeps the assignments it made. *)
Definition applyUpdates (us : list (Z * Update)) (s : t) : t :=
  foldl (fun s' tu => snd (updateState (fst tu) (snd tu) s')) s us.

(** The sessions that the code can produce: built by the constructor and
    then changed through [updateState] only (no other code assigns
    [currentPosition] or [totalWords]). *)
Inductive reachable : t -> Prop :=
| reach_new newId now a s : construct newId now a = Ok s -> reachable s
| reach_update now u s : reachable s -> reachable (snd (updateState now u s)).

Definition inRange (s : t) : Prop :=
  (0 <= totalWords s)%Z
  /\ (0 <= currentPosition s <= Z.max 0 (totalWords s - 1))%Z.

(** Constructor arguments used in the examples. *)
Definition sampleArgs (text : string) (start : Z) : Args :=
  mkArgs (Some "c1"%string) (Some "https://example.org"%string)
    (Some (lit text)) (Some start) None None (Some 1%Z).

End AudioSession.

(** ** SpeechController *)

Module SpeechController.

(** A reference to a session object. *)
Definition ref := nat.

Record Voice := mkVoice {
  name : string;
  lang : jsstring;
  localService : bool
}.

(** A [SpeechSynthesisUtterance] built by [_startSpeechSynthesis]; its four
    handlers close over the session object [u_session]. *)
Record Utterance := mkUtterance {
  u_text : jsstring;
  u_voice : option Voice;
  rate : Q;
  u_volume : Q;
  pitch : Q;
  u_session : ref
}.

(** What the controller does to the outside: calls of the speech engine and
    messages sent to a tab ([session.toJSON()] is the session's fields). *)
Inductive Effect :=
| Speak (u : Utterance)
| Pause
| Resume
| Cancel
| SessionUpdated (tabId : Z) (session : AudioSession.t)
| SessionErrorMsg (tabId : Z) (error : string) (sessionId : string).

(** What the controller reads from the outside during one call. *)
Record Env := mkEnv {
  supported : bool;            (* _isSpeechSupported() *)
  synth : bool;                (* a speechSynthesis object exists *)
  voicesNow : list Voice;      (* getVoices() on entry *)
  voicesLoaded : list Voice;   (* getVoices() after waiting for the list *)
  speaking : bool;             (* speechSynthesis.speaking *)
  paused : bool;               (* speechSynthesis.paused *)
  now : Z;                     (* new Date() *)
  newId : string               (* _generateSessionId() *)
}.

Record t := mkController {
  store : gmap ref AudioSession.t;
  activeSessions : gmap string ref;
  maxConcurrentSessions : nat;
  currentUtterance : option Utterance;
  currentSessionId : option string
}.

(** [new SpeechController()] *)
Definition create : t := mkController ∅ ∅ 10 None None.

Definition set_store (st : gmap ref AudioSession.t) (c : t) : t :=
  mkController st (activeSessions c) (maxConcurrentSessions c)
    (currentUtterance c) (currentSessionId c).

Definition set_activeSessions (m : gmap string ref) (c : t) : t :=
  mkController (store c) m (maxConcurrentSessions c)
    (currentUtterance c) (currentSessionId c).

Definition set_current (u : option Utterance) (id : option string) (c : t)
  : t :=
  mkController (store c) (activeSessions c) (maxConcurrentSessions c) u id.

(** *** Computations of the controller

    A method is a function of the controller state that gives a value or a
    thrown error, the state after the call and the effects it had.  A
    thrown error keeps the state reached so far. *)
Definition M (A : Type) : Type := t -> result A * t * list Effect.

Definition ret {A} (a : A) : M A := fun c => (Ok a, c, []).

Definition throw {A} (e : Error) : M A := fun c => (Throw e, c, []).

Definition bind {A B} (m : M A) (f : A -> M B) : M B :=
  fun c =>
    match m c with
    | (Ok a, c', tr) =>
        let '(r, c'', tr') := f a c' in (r, c'', tr ++ tr')
    | (Throw e, c', tr) => (Throw e, c', tr)
    end.

Definition tryCatch {A} (m : M A) (handler : Error -> M A) : M A :=
  fun c =>
    match m c with
    | (Ok a, c', tr) => (Ok a, c', tr)
    | (Throw e, c', tr) =>
        let '(r, c'', tr') := handler e c' in (r, c'', tr ++ tr')
    end.

Definition get : M t := fun c => (Ok c, c, []).

Definition modify (f : t -> t) : M unit := fun c => (Ok tt, f c, []).

Definition emit (e : Effect) : M unit := fun c => (Ok tt, c, [e]).

Declare Scope ctl_scope.
Delimit Scope ctl_scope with ctl.
Notation "'do' x <- m ;;; k" := (bind m (fun x => k))
  (at level 10, x name, m at level 99, k at level 200) : ctl_scope.
Notation "m ;;; k" := (bind m (fun _ => k))
  (at level 100, k at level 200, right associativity) : ctl_scope.
Local Open Scope ctl_scope.

Definition when (b : bool) (m : M unit) : M unit :=
  if b then m else ret tt.

(** Reading the object behind a reference.  References are created by
    [alloc] only and objects are never removed from the store, so the
    second case does not occur in a state built by the methods below. *)
Definition load (r : ref) : M AudioSession.t :=
  fun c =>
    match store c !! r with
    | Some s => (Ok s, c, [])
    | None => (Throw (GenericError "dangling session reference"), c, [])
    end.

(** [new AudioSession(args)]: the object is placed at a fresh reference. *)
Definition alloc (env : Env) (args : AudioSession.Args) : M ref :=
  fun c =>
    match AudioSession.construct (newId env) (now env) args with
    | Throw e => (Throw e, c, [])
    | Ok s =>
        let r := fresh (dom (store c)) in
        (Ok r, set_store (<[r := s]> (store c)) c, [])
    end.

(** [session.updateState(u)] on the object behind [r]. *)
Definition updateState (env : Env) (r : ref) (u : AudioSession.Update)
  : M unit :=
  do s <- load r ;;;
  let '(res, s') := AudioSession.updateState (now env) u s in
  modify (fun c => set_store (<[r := s']> (store c)) c) ;;;
  match res with
  | Ok _ => ret tt
  | Throw e => throw e
  end.

Definition idEq (a : option string) (b : string) : bool :=
  bool_decide (a = Some b).

(** [_getSession(sessionId)] *)
Definition _getSession (sessionId : string) : M ref :=
  do c <- get ;;;
  match activeSessions c !! sessionId with
  | Some r => ret r
  | None => throw (SessionNotFoundError sessionId)
  end.

(** [_broadcastSessionUpdate(session)]: a failure of [sendMessage] is
    caught and logged. *)
Definition _broadcastSessionUpdate (r : ref) : M unit :=
  do s <- load r ;;;
  emit (SessionUpdated (AudioSession.tabId s) s).

(** [_broadcastError(error, sessionId)] *)
Definition _broadcastError (message : string) (sessionId : string)
  : M unit :=
  do c <- get ;;;
  match activeSessions c !! sessionId with
  | None => ret tt
  | Some r =>
      do s <- load r ;;;
      emit (SessionErrorMsg (AudioSession.tabId s) message sessionId)
  end.

(** [_getBestVoice()] with its default language ['en-US']. *)
Definition _getBestVoice (env : Env) : M (option Voice) :=
  if negb (synth env)
  then throw (VoiceNotAvailableError (Some "en-US"%string))
  else
    let availableVoices :=
      match voicesNow env with
      | [] => voicesLoaded env
      | _ => voicesNow env
      end in
    let localVoices := List.filter localService availableVoices in
    match localVoices with
    | first :: _ =>
        match List.find (fun v => startsWith (lang v) (lit "en")) localVoices
        with
        | Some languageMatch => ret (Some languageMatch)
        | None => ret (Some first)
        end
    | [] => ret (head availableVoices)
    end.

(** [_startSpeechSynthesis(session, voice)] *)
Definition _startSpeechSynthesis (r : ref) (voice : option Voice) : M unit :=
  do s <- load r ;;;
  let textToSpeak := AudioSession.getRemainingText s in
  if negb (truthy textToSpeak)
  then throw (TextProcessingError "No text to speak" None)
  else
    let utterance :=
      mkUtterance textToSpeak voice (AudioSession.speed s)
        (AudioSession.volume s) 1 r in
    modify (set_current (Some utterance) (Some (AudioSession.sessionId s))) ;;;
    emit (Speak utterance).

(** [_calculateWordIndex(charIndex, session)] *)
Definition _calculateWordIndex (charIndex : nat) (s : AudioSession.t) : Z :=
  let textUpToChar := substring (AudioSession.getRemainingText s) 0 charIndex in
  let wordsBeforeChar := (Z.of_nat (length (splitWs textUpToChar)) - 1)%Z in
  (AudioSession.currentPosition s + Z.max 0 wordsBeforeChar)%Z.

(** *** The handlers of an utterance *)


(** [utterance.onend] *)
Definition onend (env : Env) (u : Utterance) : M unit :=
  do s <- load (u_session u) ;;;
  updateState env (u_session u)
    (AudioSession.mkUpdate (Some false) (Some false)
       (Some (AudioSession.totalWords s)) None None) ;;;
  _broadcastSessionUpdate (u_session u) ;;;
  do c <- get ;;;
  when (idEq (currentSessionId c) (AudioSession.sessionId s))
    (modify (set_current None None)).

(** [utterance.onerror]; [error] is [event.error]. *)
Definition onerror (env : Env) (u : Utterance) (error : string) : M unit :=
  updateState env (u_session u)
    (AudioSession.mkUpdate (Some false) (Some false) None None None) ;;;
  do s <- load (u_session u) ;;;
  _broadcastError ("Speech synthesis error: " +:+ error)
    (AudioSession.sessionId s).

(** [utterance.onboundary]; [isWord] is [event.name === 'word']. *)
Definition onboundary (env : Env) (u : Utterance) (isWord : bool)
    (charIndex : nat) : M unit :=
  when isWord
    (do s <- load (u_session u) ;;;
     let wordIndex := _calculateWordIndex charIndex s in
     updateState env (u_session u)
       (AudioSession.mkUpdate None None (Some wordIndex) None None) ;;;
     _broadcastSessionUpdate (u_session u)).

(** *** The public methods *)

(** The request object of [startSpeech]; [None] is [undefined]. *)
Record StartSpeechRequest := mkRequest {
  r_contentId : option string;
  r_pageUrl : option string;
  r_text : option jsstring;
  r_startWordIndex : option Z;
  r_speed : option number;
  r_volume : option number;
  r_tabId : option Z
}.

(** [!request.text] *)
Definition noText (text : option jsstring) : bool :=
  negb (truthy (default [] text)).

(** [_validateStartRequest(request)]; [None] is a missing request. *)
Definition _validateStartRequest (request : option StartSpeechRequest)
  : M StartSpeechRequest :=
  match request with
  | None => throw (GenericError "Request is required")
  | Some req =>
      if AudioSession.missing (r_contentId req)
      then throw (GenericError "contentId is required")
      else if noText (r_text req)
      then throw (GenericError "text is required")
      else
        match r_tabId req with
        | None => throw (GenericError "tabId is required")
        | Some _ => ret req
        end
  end.

(** [x || d] on an optional number. *)
Definition numOr (x : option number) (d : number) : number :=
  match x with
  | Some n => if num_truthy n then n else d
  | None => d
  end.

(** The argument object that [startSpeech] passes to the constructor. *)
Definition sessionArgs (req : StartSpeechRequest) : AudioSession.Args :=
  AudioSession.mkArgs
    (r_contentId req)
    (Some (if AudioSession.missing (r_pageUrl req) then "unknown"%string
           else default EmptyString (r_pageUrl req)))
    (r_text req)
    (Some (default 0%Z (r_startWordIndex req)))
    (Some (numOr (r_speed req) (Num 1)))
    (Some (numOr (r_volume req) (Num 1)))
    (r_tabId req).

(** [startSpeech(request)]; the value is the created session. *)
Definition startSpeech (env : Env) (request : option StartSpeechRequest)
  : M ref :=
  do req <- _validateStartRequest request ;;;
  do c <- get ;;;
  if negb (supported env) then throw SpeechNotSupportedError
  else if (maxConcurrentSessions c <=? size (activeSessions c))%nat
  then throw (SessionLimitError (maxConcurrentSessions c))
  else
    do voice <- _getBestVoice env ;;;
    match voice with
    | None => throw (VoiceNotAvailableError None)
    | Some _ =>
        if noText (r_text req)
           || (length (trim (default [] (r_text req))) =? 0)%nat
        then throw (TextProcessingError "Text content is empty" None)
        else
          tryCatch
            (do r <- alloc env (sessionArgs req) ;;;
             do s <- load r ;;;
             modify (fun c =>
               set_activeSessions
                 (<[AudioSession.sessionId s := r]> (activeSessions c)) c) ;;;
             _startSpeechSynthesis r voice ;;;
             updateState env r
               (AudioSession.mkUpdate (Some true) (Some false) None None None) ;;;
             ret r)
            (fun error =>
               throw (TextProcessingError "Failed to start speech synthesis"
                        (Some error)))
    end.

(** [pauseSpeech(sessionId)] *)
Definition pauseSpeech (env : Env) (sessionId : string) : M unit :=
  do r <- _getSession sessionId ;;;
  do c <- get ;;;
  when (idEq (currentSessionId c) sessionId && speaking env) (emit Pause) ;;;
  updateState env r
    (AudioSession.mkUpdate (Some false) (Some true) None None None).

(** [resumeSpeech(sessionId)] *)
Definition resumeSpeech (env : Env) (sessionId : string) : M unit :=
  do r <- _getSession sessionId ;;;
  do s <- load r ;;;
  if negb (AudioSession.isPaused s)
  then throw (GenericError "Invalid session state - session is not paused")
  else
    do c <- get ;;;
    (if idEq (currentSessionId c) sessionId && paused env
     then emit Resume
     else
       do voice <- _getBestVoice env ;;;
       _startSpeechSynthesis r voice) ;;;
    updateState env r
      (AudioSession.mkUpdate (Some true) (Some false) None None None).

(** [stopSpeech(sessionId)] *)
Definition stopSpeech (sessionId : string) : M unit :=
  do r <- _getSession sessionId ;;;
  do c <- get ;;;
  when (idEq (currentSessionId c) sessionId)
    (emit Cancel ;;; modify (set_current None None)) ;;;
  modify (fun c => set_activeSessions (delete sessionId (activeSessions c)) c).

(** [this.currentUtterance.rate = speed]; the method assigns the value
    that passed validation, which is the one the session now holds. *)
Definition set_rate (q : Q) (u : Utterance) : Utterance :=
  mkUtterance (u_text u) (u_voice u) q (u_volume u) (pitch u) (u_session u).

(** [this.currentUtterance.volume = volume], likewise. *)
Definition set_uvolume (q : Q) (u : Utterance) : Utterance :=
  mkUtterance (u_text u) (u_voice u) (rate u) q (pitch u) (u_session u).

(** [setSpeed(sessionId, speed)] *)
Definition setSpeed (env : Env) (sessionId : string) (speed : number)
  : M unit :=
  do r <- _getSession sessionId ;;;
  if num_lt speed (1#2) || num_gt speed (2#1)
  then throw (GenericError "Invalid speed value - must be between 0.5 and 2.0")
  else
    updateState env r
      (AudioSession.mkUpdate None None None (Some speed) None) ;;;
    do c <- get ;;;
    match currentUtterance c with
    | Some u =>
        when (idEq (currentSessionId c) sessionId)
          (do s <- load r ;;;
           modify (set_current (Some (set_rate (AudioSession.speed s) u))
                     (currentSessionId c)) ;;;
           when (speaking env && negb (paused env))
             (let wasPlaying := AudioSession.isPlaying s in
              emit Cancel ;;;
              when wasPlaying
                (do voice <- _getBestVoice env ;;;
                 _startSpeechSynthesis r voice)))
    | None => ret tt
    end ;;;
    _broadcastSessionUpdate r.

(** [setVolume(sessionId, volume)] *)
Definition setVolume (env : Env) (sessionId : string) (volume : number)
  : M unit :=
  do r <- _getSession sessionId ;;;
  if num_lt volume 0 || num_gt volume 1
  then throw (GenericError "Invalid volume value - must be between 0.0 and 1.0")
  else
    updateState env r
      (AudioSession.mkUpdate None None None None (Some volume)) ;;;
    do c <- get ;;;
    match currentUtterance c with
    | Some u =>
        when (idEq (currentSessionId c) sessionId)
          (do s <- load r ;;;
           modify (set_current (Some (set_uvolume (AudioSession.volume s) u))
                     (currentSessionId c)))
    | None => ret tt
    end ;;;
    _broadcastSessionUpdate r.

(** [getActiveSessionCount()] *)
Definition getActiveSessionCount (c : t) : nat := size (activeSessions c).

(** A session is registered under [sessionId] when the map sends the id to
    a reference that holds the session. *)
Definition registered (c : t) (sessionId : string) (r : ref)
    (s : AudioSession.t) : Prop :=
  activeSessions c !! sessionId = Some r /\ store c !! r = Some s.

(** The positions of the session of utterance [u] after each event of a
    sequence of boundary events (the environment of the call,
    [event.name === 'word'] and [event.charIndex]), delivered in order. *)
Fixpoint boundaryPositions (events : list (Env * bool * nat)) (u : Utterance)
    (c : t) : list (option Z) :=
  match events with
  | [] => []
  | (env, isWord, charIndex) :: rest =>
      let c' := snd (fst (onboundary env u isWord charIndex c)) in
      (AudioSession.currentPosition <$> store c' !! u_session u)
        :: boundaryPositions rest u c'
  end.

(** The session [s] after a successful [pauseSpeech] at time [now]. *)
Definition pausedAt (now : Z) (s : AudioSession.t) : AudioSession.t :=
  AudioSession.set_lastActiveAt now
    (AudioSession.set_isPaused true (AudioSession.set_isPlaying false s)).

(** *** The remaining methods *)

(** [getSession(sessionId)]; [None] is [null]. *)
Definition getSession (sessionId : string) : M (option ref) :=
  do c <- get ;;;
  ret (activeSessions c !! sessionId).

(** [24 * 60 * 60 * 1000] *)
Definition maxInactiveTime : Z := (24 * 60 * 60 * 1000)%Z.

(** The [for (const [sessionId, session] of this.activeSessions)] loop of
    [cleanupInactiveSessions]; [entries] are the entries still to visit and
    [now] is the value [Date.now()] had before the loop. *)
Fixpoint cleanupLoop (now : Z) (entries : list (string * ref))
    (cleanedCount : nat) : M nat :=
  match entries with
  | [] => ret cleanedCount
  | (sessionId, r) :: rest =>
      do s <- load r ;;;
      let inactiveTime := (now - AudioSession.lastActiveAt s)%Z in
      if (maxInactiveTime <? inactiveTime)%Z
      then
        modify (fun c =>
          set_activeSessions (delete sessionId (activeSessions c)) c) ;;;
        cleanupLoop now rest (S cleanedCount)
      else cleanupLoop now rest cleanedCount
  end.

(** [cleanupInactiveSessions()].  A JavaScript [Map] is visited in
    insertion order and an entry may be deleted while it is visited; the
    entries are visited here in the order of [map_to_list], each once. *)
Definition cleanupInactiveSessions (env : Env) : M nat :=
  do c <- get ;;;
  cleanupLoop (now env) (map_to_list (activeSessions c)) 0.

(** The session behind [r] has been inactive for more than the limit. *)
Definition staleAt (now : Z) (c : t) (r : ref) : bool :=
  match store c !! r with
  | Some s => (maxInactiveTime <? now - AudioSession.lastActiveAt s)%Z
  | None => false
  end.

(** *** Calls from the outside *)

(** The state a computation leaves. *)
Definition after {A} (m : M A) (c : t) : t := snd (fst (m c)).





(** The session [s] after [updateState({isPlaying: true, isPaused: false})]
    at time [now]. *)
Definition playingAt (now : Z) (s : AudioSession.t) : AudioSession.t :=
  AudioSession.set_lastActiveAt now
    (AudioSession.set_isPaused false (AudioSession.set_isPlaying true s)).

(** The session [s] after [updateState({isPlaying: false, isPaused: false})]
    at time [now]. *)
Definition stoppedAt (now : Z) (s : AudioSession.t) : AudioSession.t :=
  AudioSession.set_lastActiveAt now
    (AudioSession.set_isPaused false (AudioSession.set_isPlaying false s)).

(** The utterance [_startSpeechSynthesis] builds for the session [s] kept
    at [r]. *)
Definition utteranceFor (r : ref) (voice : option Voice)
    (s : AudioSession.t) : Utterance :=
  mkUtterance (AudioSession.getRemainingText s) voice (AudioSession.speed s)
    (AudioSession.volume s) 1 r.

(** The voices [_getBestVoice] chooses from. *)
Definition availableVoices (env : Env) : list Voice :=
  match voicesNow env with
  | [] => voicesLoaded env
  | _ => voicesNow env
  end.

(** *** States used in the examples *)

Definition sampleRequest (text : string) : StartSpeechRequest :=
  mkRequest (Some "content_1"%string) (Some "https://example.org"%string)
    (Some (lit text)) None None None (Some 1%Z).

Definition sampleEnv (now : Z) (id : string) : Env :=
  mkEnv true true [mkVoice "Test Voice" (lit "en-US") true] [] false false
    now id.

(** A fresh controller after one [startSpeech]. *)
Definition started (text : string) : t :=
  snd (fst (startSpeech (sampleEnv 0 "session_a") (Some (sampleRequest text))
              create)).

(** A controller after ten [startSpeech] calls. *)
Definition tenSessions : t :=
  foldl (fun c id =>
           snd (fst (startSpeech (sampleEnv 0 id)
                       (Some (sampleRequest "hello world")) c)))
    create
    ["s0"; "s1"; "s2"; "s3"; "s4"; "s5"; "s6"; "s7"; "s8"; "s9"]%string.

End SpeechController.

(** ** TextExtractor *)

Module TextExtractor.

Local Open Scope Q_scope.

(** What [_calculateContentScore] reads from an element: the length of its
    trimmed text, the number of [p] descendants, the summed length of the
    text of its [a] descendants, and the number of child elements. *)
Record Element := mkElement {
  textLength : nat;
  paragraphs : nat;
  linkText : nat;
  childElements : nat
}.



(** *** Choosing the main content *)






(** The [for (const selector of selectors)] loop of
    [_extractWithFallback]; [found] gives, for each selector still to try,
    the element [document.querySelector] returns ([None] for [null]). *)
Fixpoint fallbackLoop (found : list (option Element))
    (bestElement : option Element) (maxTextLength : nat) : option Element :=
  match found with
  | [] => bestElement
  | None :: rest => fallbackLoop rest bestElement maxTextLength
  | Some e :: rest =>
      if (maxTextLength <? textLength e)%nat
      then fallbackLoop rest (Some e) (textLength e)
      else fallbackLoop rest bestElement maxTextLength
  end.

(** The element [_extractWithFallback] reads the text from; [None] is
    [document.body]. *)
Definition fallbackElement (found : list (option Element)) : option Element :=
  fallbackLoop found None 0.

(** [_extractTitle(doc)].  [titles] gives, for each of the seven selectors
    in order, the string
    [element.textContent || element.getAttribute('content') || ''] of the
    element found ([None] when there is no element); [documentTitle] is
    [document.title]. *)
Fixpoint titleLoop (titles : list (option jsstring)) : option jsstring :=
  match titles with
  | [] => None
  | None :: rest => titleLoop rest
  | Some raw :: rest =>
      let title := trim raw in
      if (0 <? length title)%nat && (length title <? 200)%nat
      then Some title
      else titleLoop rest
  end.

Definition _extractTitle (titles : list (option jsstring))
    (documentTitle : jsstring) : jsstring :=
  match titleLoop titles with
  | Some title => title
  | None => if truthy documentTitle then documentTitle else lit "Web Page"
  end.

(** *** The score as the specification words it *)



End TextExtractor.

(** * Properties *)

(** ** Sentence segmentation *)

Module Segmentation.
Import ClickHandler.

Lemma search_none s i :
  Forall (fun c => isTerminal c = false) s -> search s i = None.
Proof.
  intros H. revert i. induction H as [|c s Hc _ IH]; intros i; simpl; [done|].
  rewrite Hc. apply IH.
Qed.

Lemma search_skip body rest i :
  Forall (fun c => isTerminal c = false) body ->
  search (body ++ rest) i = search rest (i + length body).
Proof.
  intros H. revert i. induction H as [|c s Hc _ IH]; intros i; simpl.
  - f_equal. lia.
  - rewrite Hc, IH. f_equal. lia.
Qed.

Lemma search_hit run rest i :
  run <> [] -> Forall (fun c => isTerminal c = true) run ->
  search (run ++ rest) i = Some i.
Proof.
  intros Hne H. destruct H as [|c run Hc _]; [done|]. simpl. by rewrite Hc.
Qed.

Lemma greedy_run run rest :
  Forall (fun c => isTerminal c = true) run -> headNotTerminal rest ->
  greedy (run ++ rest) = run.
Proof.
  intros H Hr. induction H as [|c run Hc _ IH]; simpl.
  - destruct rest as [|d rest]; simpl in *; [done|]. by rewrite Hr.
  - rewrite Hc. by f_equal.
Qed.

Lemma substring_middle (pre mid post : jsstring) :
  substring (pre ++ mid ++ post) (length pre) (length pre + length mid) = mid.
Proof.
  unfold substring. rewrite !length_app.
  rewrite !Nat.min_l by lia. rewrite Nat.max_r by lia.
  replace (length pre + length mid - length pre) with (length mid) by lia.
  rewrite drop_app_length. apply take_app_length.
Qed.

Lemma substringFrom_suffix (pre rest : jsstring) :
  substringFrom (pre ++ rest) (length pre) = rest.
Proof.
  unfold substringFrom. rewrite length_app.
  rewrite <- (app_nil_r rest) at 1.
  rewrite (substring_middle pre rest []). done.
Qed.

Lemma terminal_not_space c : isTerminal c = true -> isWhiteSpace c = false.
Proof.
  unfold isTerminal. intros H.
  apply orb_true_iff in H as [H|H]; [apply orb_true_iff in H as [H|H]|];
    apply Ascii.eqb_eq in H; subst; reflexivity.
Qed.

Lemma trimStart_ends s c :
  isWhiteSpace c = false -> trimStart (s ++ [c]) = trimStart s ++ [c].
Proof.
  intros Hc. induction s as [|d s IH]; simpl.
  - by rewrite Hc.
  - destruct (isWhiteSpace d); done.
Qed.

Lemma trim_ends_nonspace s c :
  isWhiteSpace c = false -> trim (s ++ [c]) <> [].
Proof.
  intros Hc. unfold trim, trimEnd.
  rewrite trimStart_ends by done. rewrite rev_app_distr. simpl.
  rewrite Hc. simpl. intros H. destruct (rev (rev (trimStart s))); done.
Qed.

Lemma trim_body_run body run :
  run <> [] -> Forall (fun c => isTerminal c = true) run ->
  trim (body ++ run) <> [].
Proof.
  intros Hne Hall.
  destruct (exists_last Hne) as [run' [c ->]].
  apply Forall_app in Hall as [_ Hc]. inversion Hc as [|? ? Hc' _]; subst.
  rewrite app_assoc. apply trim_ends_nonspace. by apply terminal_not_space.
Qed.

Lemma length_pos_iff (s : jsstring) : (0 <? length s)%nat = true <-> s <> [].
Proof. destruct s; simpl; split; intros; try done. Qed.

Lemma exec_none pre tail :
  Forall (fun c => isTerminal c = false) tail ->
  exec (pre ++ tail) (length pre) = (None, 0).
Proof.
  intros H. unfold exec. rewrite length_app.
  destruct (_ <? _)%nat eqn:E; [done|].
  rewrite drop_app_length.
  by rewrite search_none.
Qed.

Lemma exec_run pre body run rest :
  Forall (fun c => isTerminal c = false) body ->
  run <> [] -> Forall (fun c => isTerminal c = true) run ->
  headNotTerminal rest ->
  exec (pre ++ body ++ run ++ rest) (length pre)
  = (Some (mkMatch (length pre + length body) run),
     length pre + length body + length run).
Proof.
  intros Hb Hne Hr Hh. unfold exec. rewrite length_app.
  destruct (_ <? _)%nat eqn:E; [apply Nat.ltb_lt in E; lia|].
  rewrite drop_app_length.
  rewrite search_skip by done. rewrite search_hit by done.
  rewrite (app_assoc pre body), <- length_app.
  rewrite drop_app_length.
  rewrite greedy_run by done. by rewrite length_app.
Qed.

Lemma splitLoop_segmented off rest l :
  Segmented off rest l ->
  forall pre acc fuel, length pre = off -> length rest < fuel ->
    finish (pre ++ rest) (splitLoop fuel (pre ++ rest) off off acc)
    = Some (acc ++ l).
Proof.
  induction 1 as [off tail Hall Hblank | off tail Hall Hne
                 | off body run rest l Hb Hne Hr Hh Hseg IH];
    intros pre acc fuel Hpre Hfuel;
    (destruct fuel as [|fuel]; [lia|]); subst off; simpl.
  - rewrite exec_none by done. simpl. unfold splitTail.
    rewrite substringFrom_suffix, Hblank. simpl.
    rewrite app_nil_r. by destruct (_ <? _)%nat.
  - rewrite exec_none by done. simpl. unfold splitTail.
    rewrite substringFrom_suffix.
    assert (tail <> []) as Ht by (intros ->; by apply Hne).
    rewrite length_app.
    destruct (_ <? _)%nat eqn:E.
    + apply length_pos_iff in Hne. by rewrite Hne.
    + apply Nat.ltb_ge in E. destruct tail; [done|]. simpl in E. lia.
  - rewrite exec_run by done. simpl.
    replace (length pre + length body + length run)
      with (length pre + length (body ++ run)) by (rewrite length_app; lia).
    rewrite (app_assoc body run rest).
    rewrite (substring_middle pre (body ++ run) rest).
    pose proof (trim_body_run body run Hne Hr) as Hne'.
    apply length_pos_iff in Hne'. rewrite Hne'.
    specialize (IH (pre ++ body ++ run)
                  (acc ++ [mkSentence (trim (body ++ run)) (length pre)
                             (length pre + length (body ++ run))]) fuel).
    rewrite <- !app_assoc in IH. rewrite <- !app_assoc.
    rewrite IH; [done | by rewrite !length_app | ].
    rewrite !length_app in Hfuel. destruct run; [done|]. simpl in Hfuel. lia.
Qed.

Lemma greedy_split s :
  exists rest, s = greedy s ++ rest
    /\ Forall (fun c => isTerminal c = true) (greedy s)
    /\ headNotTerminal rest.
Proof.
  induction s as [|c s [rest (Heq & Hall & Hh)]]; simpl.
  - exists []. by repeat split.
  - destruct (isTerminal c) eqn:Hc.
    + exists rest. repeat split; [simpl; by f_equal | by constructor | done].
    + exists (c :: s). by repeat split.
Qed.

Lemma body_split s :
  exists body rem, s = body ++ rem
    /\ Forall (fun c => isTerminal c = false) body
    /\ match rem with [] => True | c :: _ => isTerminal c = true end.
Proof.
  induction s as [|c s (body & rem & Heq & Hall & Hrem)].
  - exists [], []. by repeat split.
  - destruct (isTerminal c) eqn:Hc.
    + exists [], (c :: s). by repeat split.
    + exists (c :: body), rem. repeat split; [simpl; by f_equal | by constructor | done].
Qed.

Lemma segmented_exists n : forall text off,
  length text <= n -> exists l, Segmented off text l.
Proof.
  induction n as [|n IH]; intros text off Hlen.
  - destruct text; [|simpl in Hlen; lia].
    exists []. by apply Seg_blank.
  - destruct (body_split text) as (body & rem & -> & Hbody & Hrem).
    destruct rem as [|c rem].
    + rewrite app_nil_r in *.
      destruct (trim body) eqn:Ht.
      * exists []. by apply Seg_blank.
      * eexists. apply Seg_tail; [done|]. by rewrite Ht.
    + destruct (greedy_split (c :: rem)) as (rest & Heq & Hrun & Hh).
      assert (greedy (c :: rem) <> []) as Hne by (simpl; by rewrite Hrem).
      destruct (IH rest (off + length (body ++ greedy (c :: rem)))) as [l Hl].
      { rewrite Heq, !length_app in Hlen.
        destruct (greedy (c :: rem)); [done|]. simpl in Hlen. lia. }
      eexists. rewrite Heq. by apply Seg_run.
Qed.

Lemma segmented_nonempty off txt l :
  Segmented off txt l -> Forall (fun s => text s <> []) l.
Proof.
  induction 1; repeat constructor; simpl; try done.
  by apply trim_body_run.
Qed.

Lemma splitWithin_segmented (text : jsstring) l fuel :
  Segmented 0 text l -> length text < fuel ->
  splitIntoSentencesWithin fuel text = Some l.
Proof.
  intros Hl Hf. unfold splitIntoSentencesWithin.
  pose proof (splitLoop_segmented 0 text l Hl [] [] fuel eq_refl Hf) as H.
  cbn [app] in H. unfold finish in H.
  destruct (truthy text) eqn:Ht; cbn [negb].
  - destruct (splitLoop fuel text 0 0 []) as [[ss le]|]; done.
  - destruct text; [|done]. destruct fuel; [lia|].
    simpl in H. done.
Qed.

(** Any iteration bound above the length of the text gives the same
    result: the loop ends because [exec] returns [null]. *)
Lemma splitIntoSentences_enough_fuel (text : jsstring) (fuel : nat) :
  length text < fuel ->
  splitIntoSentencesWithin fuel text = Some (splitIntoSentences text).
Proof.
  intros Hfuel.
  destruct (segmented_exists (length text) text 0 (le_n _)) as [l Hl].
  unfold splitIntoSentences.
  rewrite (splitWithin_segmented text l (S (length text))) by (done || lia).
  apply splitWithin_segmented; [done|lia].
Qed.


(** [Segmented] determines the sentences: it is a specification of one
    result, not of a family of results. *)
Lemma Segmented_functional off text l1 l2 :
  Segmented off text l1 -> Segmented off text l2 -> l1 = l2.
Proof.
  intros H1 H2.
  pose (pre := repeat "a"%char off).
  assert (length pre = off) as Hp by apply repeat_length.
  pose proof (splitLoop_segmented off text l1 H1 pre [] (S (length text)) Hp
                (le_n _)) as E1.
  pose proof (splitLoop_segmented off text l2 H2 pre [] (S (length text)) Hp
                (le_n _)) as E2.
  rewrite E1 in E2. by injection E2.
Qed.

Example split_three :
  map text
    (splitIntoSentences
       (lit "First sentence here. Second one follows. Third ends it!"))
  = [lit "First sentence here."; lit "Second one follows.";
     lit "Third ends it!"].
Proof. vm_compute. reflexivity. Qed.

Example split_naive_decimal :
  map text (splitIntoSentences (lit "Pi is 3.14 ?!  ok  "))
  = [lit "Pi is 3."; lit "14 ?!"; lit "ok"].
Proof. vm_compute. reflexivity. Qed.

(** *** Offsets of the sentences *)

Lemma split_is_segmented (text : jsstring) :
  Segmented 0 text (splitIntoSentences text).
Proof.
  destruct (segmented_exists (length text) text 0 (le_n _)) as [l Hl].
  pose proof (splitIntoSentences_enough_fuel text (S (length text)) (le_n _))
    as Hrun.
  rewrite (splitWithin_segmented text l) in Hrun by (done || lia).
  by injection Hrun as <-.
Qed.

Lemma Segmented_contiguous off txt l :
  Segmented off txt l -> Contiguous off (off + length txt) l.
Proof.
  induction 1 as [off tail Hall Hblank | off tail Hall Hne
                 | off body run rest l Hb Hne Hr Hh Hseg IH]; simpl.
  - done.
  - destruct tail as [|c tail]; [done|]. simpl. repeat split; lia.
  - rewrite !length_app in *. destruct run as [|c run]; [done|].
    simpl in *. repeat split; try lia.
    replace (off + (length body + S (length run + length rest)))
      with (off + (length body + S (length run)) + length rest) by lia.
    done.
Qed.

Lemma Segmented_texts off txt l :
  Segmented off txt l ->
  forall pre, length pre = off ->
    Forall (fun s => text s = trim (substring (pre ++ txt) (start s) (end_ s)))
      l.
Proof.
  induction 1 as [off tail Hall Hblank | off tail Hall Hne
                 | off body run rest l Hb Hne Hr Hh Hseg IH];
    intros pre Hpre; subst off.
  - constructor.
  - repeat constructor. simpl.
    pose proof (substring_middle pre tail []) as E.
    rewrite app_nil_r in E. by rewrite E.
  - constructor.
    + simpl. rewrite (app_assoc body run rest).
      by rewrite (substring_middle pre (body ++ run) rest).
    + specialize (IH (pre ++ body ++ run)).
      rewrite <- !app_assoc in IH. apply IH.
      rewrite !length_app. lia.
Qed.

Lemma Segmented_remainder off txt l :
  Segmented off txt l ->
  forall pre, length pre = off ->
    trim (substringFrom (pre ++ txt) (lastEnd off l)) = [].
Proof.
  induction 1 as [off tail Hall Hblank | off tail Hall Hne
                 | off body run rest l Hb Hne Hr Hh Hseg IH];
    intros pre Hpre; subst off; simpl.
  - by rewrite substringFrom_suffix.
  - rewrite <- length_app.
    pose proof (substringFrom_suffix (pre ++ tail) []) as E.
    rewrite app_nil_r in E. by rewrite E.
  - specialize (IH (pre ++ body ++ run)).
    rewrite <- !app_assoc in IH. apply IH.
    rewrite !length_app. lia.
Qed.

(** X1.  The spans of [splitIntoSentences] tile the text: the first starts
    at 0, each next one starts where the previous one ends, every span is
    non-empty and ends within the text, every sentence text is the trimmed
    slice of its span and is not empty, and what follows the last span is
    white space only. *)
Theorem sentence_spans_tile (text : jsstring) :
  Contiguous 0 (length text) (splitIntoSentences text)
  /\ Forall (fun s => ClickHandler.text s
                      = trim (substring text (start s) (end_ s))
                      /\ ClickHandler.text s <> [])
       (splitIntoSentences text)
  /\ trim (substringFrom text (lastEnd 0 (splitIntoSentences text))) = [].
Proof.
  pose proof (split_is_segmented text) as Hseg.
  split; [exact (Segmented_contiguous 0 text _ Hseg)|]. split.
  - pose proof (Segmented_texts 0 text _ Hseg [] eq_refl) as Ht.
    pose proof (segmented_nonempty 0 text _ Hseg) as Hn.
    rewrite Forall_forall in *. intros s Hs. split; [by apply Ht|by apply Hn].
  - exact (Segmented_remainder 0 text _ Hseg [] eq_refl).
Qed.

Lemma sentenceAt_sound ss off s :
  sentenceAt ss off = Some s ->
  s ∈ ss /\ (start s <= off)%nat /\ (off < end_ s)%nat.
Proof.
  induction ss as [|x ss IH]; simpl; [done|].
  destruct ((start x <=? off)%nat && (off <? end_ x)%nat) eqn:E.
  - intros [= <-]. apply andb_true_iff in E as [E1 E2].
    apply Nat.leb_le in E1. apply Nat.ltb_lt in E2.
    split; [by left|done].
  - intros H. destruct (IH H) as (? & ? & ?). split; [by right|done].
Qed.

Lemma sentenceAt_complete o limit ss off :
  Contiguous o limit ss -> (o <= off)%nat -> (off < lastEnd o ss)%nat ->
  exists s, sentenceAt ss off = Some s.
Proof.
  revert o. induction ss as [|x ss IH]; intros o Hc Hlo Hhi; simpl in *.
  - lia.
  - destruct Hc as (Hs & Hlt & Hle & Hc).
    destruct ((start x <=? off)%nat && (off <? end_ x)%nat) eqn:E; [by eexists|].
    apply (IH (end_ x)); [done| |done].
    apply andb_false_iff in E as [E|E].
    + apply Nat.leb_gt in E. lia.
    + apply Nat.ltb_ge in E. done.
Qed.

Lemma sentenceAt_beyond o limit ss off :
  Contiguous o limit ss -> (lastEnd o ss <= off)%nat ->
  sentenceAt ss off = None.
Proof.
  revert o. induction ss as [|x ss IH]; intros o Hc Hhi; simpl in *; [done|].
  destruct Hc as (Hs & Hlt & Hle & Hc).
  assert (end_ x <= lastEnd (end_ x) ss)%nat as Hmono.
  { clear -Hc. revert Hc. generalize (end_ x).
    induction ss as [|y ss IH']; intros n Hc; simpl in *; [lia|].
    destruct Hc as (_ & ? & _ & Hc). specialize (IH' _ Hc). lia. }
  destruct ((start x <=? off)%nat && (off <? end_ x)%nat) eqn:E.
  - apply andb_true_iff in E as [_ E]. apply Nat.ltb_lt in E. lia.
  - by apply (IH (end_ x)).
Qed.

(** X2.  [getClickedSentenceText] on a paragraph: when the click offset
    lies before the end of the last sentence of the paragraph, the result
    is the text of a sentence of the paragraph whose span holds the
    offset, and that text is the trimmed slice of the paragraph; when the
    offset lies at or after that end (a click in trailing white space, or
    a paragraph without sentences), the result is [null]. *)
Theorem clicked_sentence_holds_offset (startContainer startOffset : nat)
    (nodes : list TextNode) :
  let paragraphText := concat (map textContent nodes) in
  let clickOffset := getTextOffset nodes startContainer startOffset in
  let sentences := splitIntoSentences paragraphText in
  ((clickOffset < lastEnd 0 sentences)%nat ->
     exists s, s ∈ sentences
       /\ (start s <= clickOffset)%nat /\ (clickOffset < end_ s)%nat
       /\ ClickHandler.text s
          = trim (substring paragraphText (start s) (end_ s))
       /\ getClickedSentenceText (Some (startContainer, startOffset))
            (Some nodes) = Some (ClickHandler.text s))
  /\ ((lastEnd 0 sentences <= clickOffset)%nat ->
      getClickedSentenceText (Some (startContainer, startOffset))
        (Some nodes) = None).
Proof.
  intros paragraphText clickOffset sentences.
  pose proof (split_is_segmented paragraphText) as Hseg.
  pose proof (Segmented_contiguous 0 paragraphText _ Hseg) as Hc.
  fold sentences in Hseg, Hc. split.
  - intros Hlt.
    destruct (sentenceAt_complete 0 _ sentences clickOffset Hc ltac:(lia) Hlt)
      as [s Hs].
    destruct (sentenceAt_sound _ _ _ Hs) as (Hin & Hlo & Hhi).
    exists s. repeat split; try done.
    + pose proof (Segmented_texts 0 paragraphText _ Hseg [] eq_refl) as Ht.
      fold sentences in Ht. rewrite Forall_forall in Ht. by apply Ht.
    + unfold getClickedSentenceText. fold paragraphText clickOffset sentences.
      by rewrite Hs.
  - intros Hge. unfold getClickedSentenceText.
    fold paragraphText clickOffset sentences.
    by rewrite (sentenceAt_beyond 0 _ sentences clickOffset Hc Hge).
Qed.

Lemma clicked_sentence_holds_offset_witness :
  getClickedSentenceText (Some (7, 3))
    (Some [mkTextNode 5 (lit "One. Tw"); mkTextNode 7 (lit "o is ");
           mkTextNode 9 (lit "here! ")])
  = Some (lit "Two is here!").
Proof.
  destruct (clicked_sentence_holds_offset 7 3
              [mkTextNode 5 (lit "One. Tw"); mkTextNode 7 (lit "o is ");
               mkTextNode 9 (lit "here! ")]) as [H _].
  destruct H as (s & Hin & Hlo & Hhi & Ht & Hrun); [vm_compute; lia|].
  rewrite Hrun. f_equal. rewrite Ht.
  vm_compute in Hin, Hlo, Hhi.
  apply list_elem_of_In in Hin. simpl in Hin.
  destruct Hin as [<-|[<-|[]]]; simpl in *; [lia|].
  vm_compute. reflexivity.
Defined.

Lemma getTextOffset_loop_found before node after offset acc :
  Forall (fun n => nodeId n <> nodeId node) before ->
  getTextOffset_loop (before ++ node :: after) (nodeId node) offset acc
  = acc + length (concat (map textContent before)) + offset.
Proof.
  intros H. revert acc. induction H as [|n before Hn _ IH]; intros acc; simpl.
  - rewrite Nat.eqb_refl. lia.
  - apply Nat.eqb_neq in Hn. rewrite Hn, IH, length_app. lia.
Qed.

Lemma getTextOffset_loop_missing nodes id offset acc :
  Forall (fun n => nodeId n <> id) nodes ->
  getTextOffset_loop nodes id offset acc
  = acc + length (concat (map textContent nodes)).
Proof.
  intros H. revert acc. induction H as [|n nodes Hn _ IH]; intros acc; simpl.
  - lia.
  - apply Nat.eqb_neq in Hn. rewrite Hn, IH, length_app. lia.
Qed.

(** X3.  [getTextOffset] turns a position inside a text node into the
    position inside the container's text: for the first text node with the
    given identity the result is the length of the text before the node
    plus the offset, and the container's text from that position on is the
    node's text from the offset on followed by the text of the later
    nodes.  For a node that is not below the container the result is the
    length of the container's text. *)
Theorem getTextOffset_position (before after : list TextNode)
    (node : TextNode) (offset : nat) :
  Forall (fun n => nodeId n <> nodeId node) before ->
  (offset <= length (textContent node))%nat ->
  let nodes := before ++ node :: after in
  getTextOffset nodes (nodeId node) offset
  = length (concat (map textContent before)) + offset
  /\ skipn (getTextOffset nodes (nodeId node) offset)
       (concat (map textContent nodes))
     = skipn offset (textContent node) ++ concat (map textContent after)
  /\ (forall id, Forall (fun n => nodeId n <> id) nodes ->
        getTextOffset nodes id offset
        = length (concat (map textContent nodes))).
Proof.
  intros Hb Ho nodes.
  assert (getTextOffset nodes (nodeId node) offset
          = length (concat (map textContent before)) + offset) as E.
  { unfold getTextOffset, nodes. by rewrite getTextOffset_loop_found. }
  split; [done|]. split.
  - rewrite E. unfold nodes. rewrite map_app, concat_app. simpl.
    rewrite skipn_app.
    rewrite skipn_all2 by lia. simpl.
    replace (length (concat (map textContent before)) + offset
             - length (concat (map textContent before))) with offset by lia.
    rewrite skipn_app.
    replace (offset - length (textContent node)) with 0 by lia. done.
  - intros id Hid. unfold getTextOffset.
    by rewrite getTextOffset_loop_missing.
Qed.

Lemma getTextOffset_position_witness :
  getTextOffset [mkTextNode 5 (lit "One. Tw"); mkTextNode 7 (lit "o is ");
                 mkTextNode 9 (lit "here! ")] 7 3 = 10.
Proof.
  destruct (getTextOffset_position [mkTextNode 5 (lit "One. Tw")]
              [mkTextNode 9 (lit "here! ")] (mkTextNode 7 (lit "o is ")) 3)
    as (E & _).
  - repeat constructor. simpl. lia.
  - simpl. lia.
  - exact E.
Defined.

(** *** The sentence under a clicked element *)

Lemma sentenceSpans_split (fullText : jsstring) :
  sentenceSpans fullText = splitIntoSentences fullText.
Proof.
  unfold sentenceSpans, splitIntoSentences, splitIntoSentencesWithin.
  destruct fullText as [|c r]; [reflexivity|]. simpl truthy. simpl negb.
  cbv iota. by destruct (splitLoop _ _ _ _ _) as [[ss e]|].
Qed.

Lemma startsWith_prefix s sub :
  startsWith s sub = true -> exists post, s = sub ++ post.
Proof.
  revert s. induction sub as [|c sub IH]; intros s H; simpl in *.
  - by exists s.
  - destruct s as [|d s]; [done|].
    apply andb_true_iff in H as [Hc H]. apply Ascii.eqb_eq in Hc as ->.
    destruct (IH s H) as [post ->]. by exists post.
Qed.

Lemma indexOf_occurrence s sub p :
  indexOf s sub = Some p ->
  exists pre post, s = pre ++ sub ++ post /\ length pre = p.
Proof.
  revert p. induction s as [|d s IH]; intros p; cbn [indexOf].
  - destruct (startsWith [] sub) eqn:E; [|done]. intros [= <-].
    destruct (startsWith_prefix _ _ E) as [post Hs]. by exists [], post.
  - destruct (startsWith (d :: s) sub) eqn:E.
    + intros [= <-]. destruct (startsWith_prefix _ _ E) as [post Hs].
      by exists [], post.
    + destruct (indexOf s sub) as [q|]; [|done]. simpl. intros [= <-].
      destruct (IH q eq_refl) as (pre & post & -> & <-).
      by exists (d :: pre), post.
Qed.

Lemma trimStart_only_space s :
  trimStart s = [] -> Forall (fun c => isWhiteSpace c = true) s.
Proof.
  induction s as [|c s IH]; simpl; [constructor|].
  destruct (isWhiteSpace c) eqn:E; [|done]. intros H. constructor; auto.
Qed.

Lemma trimStart_head s c r :
  trimStart s = c :: r -> isWhiteSpace c = false.
Proof.
  induction s as [|d s IH]; simpl; [done|].
  destruct (isWhiteSpace d) eqn:E; [done|]. by intros [= <- _].
Qed.

Lemma trimStart_suffix s : exists pre, s = pre ++ trimStart s.
Proof.
  induction s as [|d s [pre IH]]; simpl; [by exists []|].
  destruct (isWhiteSpace d); [|by exists []].
  exists (d :: pre). simpl. by rewrite <- IH.
Qed.

Lemma trimEnd_keeps_head c r :
  isWhiteSpace c = false -> trimEnd (c :: r) <> [] /\
  exists r', trimEnd (c :: r) = c :: r'.
Proof.
  intros Hc.
  assert (trimEnd (c :: r) = c :: rev (trimStart (rev r))) as ->.
  { unfold trimEnd. simpl rev at 2.
    rewrite trimStart_ends by done. by rewrite rev_app_distr. }
  split; [done|]. by eexists.
Qed.

Lemma trim_only_space s :
  trim s = [] -> Forall (fun c => isWhiteSpace c = true) s.
Proof.
  unfold trim. intros H. apply trimStart_only_space.
  destruct (trimStart s) as [|c r] eqn:E; [done|].
  pose proof (trimStart_head _ _ _ E) as Hc.
  by destruct (trimEnd_keeps_head c r Hc).
Qed.

Lemma trim_head s :
  trim s <> [] -> exists c r, trim s = c :: r /\ isWhiteSpace c = false.
Proof.
  unfold trim. intros H.
  destruct (trimStart s) as [|c r] eqn:E; [done|].
  pose proof (trimStart_head _ _ _ E) as Hc.
  destruct (trimEnd_keeps_head c r Hc) as [_ [r' ->]]. by exists c, r'.
Qed.

Lemma lastEnd_within o limit ss :
  Contiguous o limit ss -> (o <= limit)%nat -> (lastEnd o ss <= limit)%nat.
Proof.
  revert o. induction ss as [|x ss IH]; intros o Hc Hle; simpl in *; [done|].
  destruct Hc as (_ & _ & Hx & Hc). by apply IH.
Qed.

Lemma substringFrom_drop (s : jsstring) k :
  (k <= length s)%nat -> substringFrom s k = drop k s.
Proof.
  intros Hk. pose proof (substringFrom_suffix (take k s) (drop k s)) as H.
  rewrite take_drop, length_take, Nat.min_l in H by done. exact H.
Qed.

Lemma occurrence_within_spans (fullText sub : jsstring) p :
  sub <> [] -> (exists c r, sub = c :: r /\ isWhiteSpace c = false) ->
  indexOf fullText sub = Some p ->
  (p < lastEnd 0 (splitIntoSentences fullText))%nat.
Proof.
  intros Hne (c & r & -> & Hc) Hp.
  destruct (indexOf_occurrence _ _ _ Hp) as (pre & post & Hs & Hlen).
  pose proof (split_is_segmented fullText) as Hseg.
  pose proof (Segmented_contiguous 0 fullText _ Hseg) as Hcont.
  pose proof (Segmented_remainder 0 fullText _ Hseg [] eq_refl) as Hrem.
  change ([] ++ fullText) with fullText in Hrem.
  change (0 + length fullText)%nat with (length fullText) in Hcont.
  set (k := lastEnd 0 (splitIntoSentences fullText)) in *.
  assert (k <= length fullText)%nat as Hk
    by (apply (lastEnd_within 0 _ _ Hcont); lia).
  destruct (Nat.lt_ge_cases p k) as [|Hge]; [done|]. exfalso.
  rewrite substringFrom_drop in Hrem by done.
  apply trim_only_space in Hrem. rewrite Forall_forall in Hrem.
  assert ((fullText : list ascii) !! p = Some c) as Hat.
  { rewrite Hs. by apply list_lookup_middle. }
  assert (drop k (fullText : list ascii) !! (p - k)%nat = Some c) as Hd.
  { rewrite lookup_drop. by replace (k + (p - k))%nat with p by lia. }
  apply list_elem_of_lookup_2 in Hd.
  specialize (Hrem c Hd). congruence.
Qed.

(** X22.  [extractTextFromElement] on a text container: when the trimmed
    clicked text occurs in the container's text, the result is the text of
    a sentence of the container whose span holds the first occurrence, so
    the fallback after the sentence loop is never taken; when the clicked
    text is blank or does not occur, the result is the container's whole
    text. *)
Theorem element_text_is_sentence_of_occurrence
    (fullText clickedText : jsstring) :
  (forall clickPosition,
     trim clickedText <> [] ->
     indexOf fullText (trim clickedText) = Some clickPosition ->
     exists s, s ∈ splitIntoSentences fullText
       /\ (start s <= clickPosition)%nat /\ (clickPosition < end_ s)%nat
       /\ extractTextFromElement (Some fullText) clickedText
          = ClickHandler.text s)
  /\ (trim clickedText = [] \/ indexOf fullText (trim clickedText) = None ->
      extractTextFromElement (Some fullText) clickedText = fullText).
Proof.
  split.
  - intros p Hne Hp.
    pose proof (occurrence_within_spans fullText (trim clickedText) p Hne
                  (trim_head _ Hne) Hp) as Hlt.
    pose proof (split_is_segmented fullText) as Hseg.
    pose proof (Segmented_contiguous 0 fullText _ Hseg) as Hc.
    destruct (sentenceAt_complete 0 _ _ p Hc ltac:(lia) Hlt) as [s Hs].
    destruct (sentenceAt_sound _ _ _ Hs) as (Hin & Hlo & Hhi).
    exists s. split_and!; try done.
    unfold extractTextFromElement.
    destruct (trim clickedText) as [|c r] eqn:E; [done|]. simpl truthy.
    simpl negb. cbv iota. rewrite Hp, sentenceSpans_split. by rewrite Hs.
  - intros [H|H]; unfold extractTextFromElement.
    + by rewrite H.
    + rewrite H. by destruct (negb (truthy (trim clickedText))).
Qed.

Lemma element_text_is_sentence_of_occurrence_witness :
  exists s, s ∈ splitIntoSentences (lit "Intro here. The quick fox! End")
    /\ (start s <= 16)%nat /\ (16 < end_ s)%nat
    /\ extractTextFromElement (Some (lit "Intro here. The quick fox! End"))
         (lit " quick ")
       = ClickHandler.text s.
Proof.
  destruct (element_text_is_sentence_of_occurrence
              (lit "Intro here. The quick fox! End") (lit " quick "))
    as [H _].
  apply H; [by vm_compute|by vm_compute].
Defined.

End Segmentation.

(** ** Click-to-position resolution *)

Module ClickResolution.
Import ClickHandler.









End ClickResolution.

(** ** The state of a session *)

Module SessionState.
Import AudioSession.

Lemma updateState_frame now u s :
  let s' := snd (updateState now u s) in
  sessionId s' = sessionId s /\ tabId s' = tabId s
  /\ words s' = words s /\ totalWords s' = totalWords s
  /\ currentPosition s'
     = match u_currentPosition u with
       | Some p => clampPosition p (totalWords s)
       | None => currentPosition s
       end
  /\ isPlaying s' = default (isPlaying s) (u_isPlaying u)
  /\ isPaused s' = default (isPaused s) (u_isPaused u).
Proof.
  destruct u as [[?|] [?|] [?|] [[?|]|] [[?|]|]]; unfold updateState; simpl;
    repeat (match goal with |- context [if ?b then _ else _] => destruct b end;
            simpl); repeat split.
Qed.

Lemma construct_inRange newId now a s :
  construct newId now a = Ok s -> inRange s.
Proof.
  unfold construct. intros H.
  repeat (match type of H with
          | context [if ?b then _ else _] => destruct b; [discriminate|]
          | context [match ?x with _ => _ end] => destruct x eqn:?; try discriminate
          end).
  injection H as <-. unfold inRange, clampPosition; simpl. lia.
Qed.

Lemma updateState_inRange now u s :
  inRange s -> inRange (snd (updateState now u s)).
Proof.
  intros [Htw Hpos].
  destruct (updateState_frame now u s) as (_ & _ & _ & Etw & Epos & _).
  unfold inRange. rewrite Etw, Epos.
  split; [done|]. destruct (u_currentPosition u); [unfold clampPosition|]; lia.
Qed.

Create HintDb session.
#[local] Hint Resolve construct_inRange updateState_inRange : session.

Lemma reachable_inRange s : reachable s -> inRange s.
Proof. induction 1; eauto with session. Qed.

Lemma applyUpdates_reachable us s : reachable s -> reachable (applyUpdates us s).
Proof.
  revert s. induction us as [|[now u] us IH]; intros s Hs; simpl; [done|].
  apply IH. by constructor.
Qed.

(** C4.  For every session built by the constructor and every sequence of
    state updates, [0 <= currentPosition <= totalWords] holds afterwards;
    and whatever integer a further update carries, the bound still holds,
    the stored position is the clamped one, a negative value gives 0 and a
    value above [totalWords] is not stored as given. *)
Theorem position_bound newId now a s (us : list (Z * Update)) :
  construct newId now a = Ok s ->
  let s' := applyUpdates us s in
  (0 <= currentPosition s' <= totalWords s')%Z
  /\ forall t u p, u_currentPosition u = Some p ->
       let s'' := snd (updateState t u s') in
       (0 <= currentPosition s'' <= totalWords s'')%Z
       /\ currentPosition s'' = clampPosition p (totalWords s')
       /\ ((p < 0)%Z -> currentPosition s'' = 0%Z)
       /\ ((totalWords s' < p)%Z -> currentPosition s'' <> p).
Proof.
  intros Hc s'.
  assert (reachable s') as Hr by (apply applyUpdates_reachable; econstructor; eauto).
  pose proof (reachable_inRange _ Hr) as [Htw Hpos].
  split; [lia|]. intros t u p Hu s''.
  pose proof (reachable_inRange _ (reach_update t u _ Hr)) as [Htw' Hpos'].
  destruct (updateState_frame t u s') as (_ & _ & _ & Etw & Epos & _).
  fold s'' in Htw', Hpos', Etw, Epos. rewrite Hu in Epos.
  split; [lia|]. split; [done|].
  rewrite Epos. unfold clampPosition. split; intros; lia.
Qed.

Lemma position_bound_witness :
  exists s, construct "session_1" 0 (sampleArgs "one two three" 0) = Ok s
    /\ currentPosition
         (snd (updateState 5 (mkUpdate None None (Some 7%Z) None None)
                 (applyUpdates [(1%Z, mkUpdate None None (Some (-4)%Z) None None)] s)))
       = 2%Z.
Proof.
  eexists. split; [vm_compute; reflexivity|].
  match goal with |- context [applyUpdates ?us ?s] =>
    destruct (position_bound "session_1" 0 (sampleArgs "one two three" 0) s us
                ltac:(vm_compute; reflexivity)) as [_ H]
  end.
  destruct (H 5%Z (mkUpdate None None (Some 7%Z) None None) 7%Z eq_refl)
    as (_ & -> & _).
  vm_compute. reflexivity.
Defined.

(** C10 (amended).  With a content id, a page url, a tab id, a non-empty
    text and valid (or default) speed and volume, construction succeeds for
    every integer start index, and the initial position is the start index
    clamped into [[0, max 0 (totalWords - 1)]]: a negative index gives 0, an
    index of [totalWords] or more gives [totalWords - 1] when the text has
    at least one word, and a text without words gives 0. *)
Theorem construct_start_index newId now a tab (txt : jsstring) q v :
  AudioSession.missing (a_contentId a) = false ->
  AudioSession.missing (a_pageUrl a) = false ->
  a_text a = Some txt -> truthy txt = true ->
  a_tabId a = Some tab ->
  _validateSpeed (default (Num 1) (a_speed a)) = Ok q ->
  _validateVolume (default (Num 1) (a_volume a)) = Ok v ->
  exists s, construct newId now a = Ok s
    /\ totalWords s = Z.of_nat (length (_extractWords txt))
    /\ currentPosition s
       = clampPosition (default 0%Z (a_startWordIndex a)) (totalWords s)
    /\ (0 <= currentPosition s <= Z.max 0 (totalWords s - 1))%Z
    /\ ((default 0 (a_startWordIndex a) < 0)%Z -> currentPosition s = 0%Z)
    /\ ((1 <= totalWords s)%Z ->
        (totalWords s <= default 0 (a_startWordIndex a))%Z ->
        currentPosition s = (totalWords s - 1)%Z)
    /\ (totalWords s = 0%Z -> currentPosition s = 0%Z).
Proof.
  intros Hc Hp Ht Htr Htab Hq Hv.
  unfold construct. rewrite Hc, Hp, Ht, Htab. simpl. rewrite Htr. simpl.
  rewrite Hq, Hv. eexists. split; [reflexivity|]. simpl.
  unfold clampPosition. repeat split; intros; lia.
Qed.

Lemma construct_start_index_witness :
  exists s, construct "session_1" 0 (sampleArgs "one two three" 9) = Ok s
    /\ currentPosition s = 2%Z.
Proof.
  destruct (construct_start_index "session_1" 0 (sampleArgs "one two three" 9)
              1 (lit "one two three") 1 1
              eq_refl eq_refl eq_refl eq_refl eq_refl eq_refl eq_refl)
    as (s & Hs & Htw & Hpos & _).
  exists s. split; [done|]. rewrite Hpos, Htw. vm_compute. reflexivity.
Defined.

(** C10 as stated fails: the non-empty text "..." has no words, so
    [totalWords - 1 = -1]; the start index 5 gives position 0, which is
    neither [totalWords - 1] nor inside [[0, totalWords - 1]]. *)
Lemma start_index_outside_claimed_interval :
  exists s, construct "session_1" 0 (sampleArgs "..." 5) = Ok s
    /\ totalWords s = 0%Z /\ currentPosition s = 0%Z
    /\ ~ (0 <= currentPosition s <= totalWords s - 1)%Z
    /\ currentPosition s <> (totalWords s - 1)%Z.
Proof.
  eexists. split; [vm_compute; reflexivity|]. simpl. repeat split; lia.
Qed.

(** *** Words, current word and completion *)

Lemma trimStart_Forall (P : ascii -> Prop) s :
  Forall P s -> Forall P (trimStart s).
Proof.
  induction 1 as [|c s Hc Hs IH]; simpl; [done|].
  destruct (isWhiteSpace c); [done|by constructor].
Qed.

Lemma trim_Forall (P : ascii -> Prop) s : Forall P s -> Forall P (trim s).
Proof.
  intros H. unfold trim, trimEnd.
  apply Forall_rev, trimStart_Forall, Forall_rev. by apply trimStart_Forall.
Qed.

Lemma splitWs_aux_pieces s : forall cur b p,
  Forall (fun c => isWhiteSpace c = false) cur ->
  p ∈ splitWs_aux s cur b ->
  Forall (fun c => isWhiteSpace c = false) p.
Proof.
  induction s as [|c s IH]; intros cur b p Hcur Hp; simpl in Hp.
  - apply list_elem_of_singleton in Hp as ->. by apply Forall_rev.
  - destruct (isWhiteSpace c) eqn:Hc.
    + destruct b.
      * by apply (IH cur true).
      * apply elem_of_cons in Hp as [->|Hp]; [by apply Forall_rev|].
        by apply (IH [] true).
    + apply (IH (c :: cur) false); [by constructor|done].
Qed.

Lemma keep_word_characters r :
  Forall (fun c => isWhiteSpace c = false) r ->
  Forall (fun c => isWordChar c = true)
    (List.filter (fun c => isWordChar c || isWhiteSpace c) r).
Proof.
  induction 1 as [|c r Hc _ IH]; simpl; [constructor|].
  rewrite Hc, orb_false_r.
  destruct (isWordChar c) eqn:E; [by constructor|done].
Qed.

(** X4.  Every word that [_extractWords] counts is non-empty and made of
    letters, digits and underscores only: white space and punctuation never
    reach the word list. *)
Theorem extractWords_word_characters (text w : jsstring) :
  w ∈ _extractWords text ->
  w <> [] /\ Forall (fun c => isWordChar c = true) w.
Proof.
  unfold _extractWords. destruct (negb (truthy text)); [by intros ?%elem_of_nil|].
  intros Hw.
  apply list_elem_of_In, filter_In in Hw as [Hw Hne].
  split; [destruct w; done|].
  apply in_map_iff in Hw as (p & <- & Hp).
  apply filter_In in Hp as [Hp _].
  apply in_map_iff in Hp as (q & <- & Hq).
  apply list_elem_of_In in Hq.
  pose proof (splitWs_aux_pieces text [] false q ltac:(constructor) Hq) as Hws.
  apply (trim_Forall _ q) in Hws.
  by apply keep_word_characters.
Qed.

Lemma extractWords_word_characters_witness :
  lit "world" <> [] /\ Forall (fun c => isWordChar c = true) (lit "world").
Proof.
  apply (extractWords_word_characters (lit "Hello,  world!")).
  apply list_elem_of_In. vm_compute. right. left. reflexivity.
Defined.

Lemma extractWords_nonEmpty text :
  Forall (fun w => w <> []) (_extractWords text).
Proof.
  apply Forall_forall. intros w Hw.
  unfold _extractWords in Hw.
  destruct (negb (truthy text)); [by apply elem_of_nil in Hw|].
  apply list_elem_of_In, filter_In in Hw as [_ Hne]. by destruct w.
Qed.

Lemma validateSpeed_stable v q :
  _validateSpeed v = Ok q -> v = Num q /\ _validateSpeed (Num q) = Ok q.
Proof.
  destruct v as [q'|]; simpl; [|done].
  destruct (Qltb q' (1 # 2) || Qltb (2 # 1) q') eqn:E; [done|].
  intros [= <-]. split; [done|]. simpl. by rewrite E.
Qed.

Lemma validateVolume_stable v q :
  _validateVolume v = Ok q -> v = Num q /\ _validateVolume (Num q) = Ok q.
Proof.
  destruct v as [q'|]; simpl; [|done].
  destruct (Qltb q' 0 || Qltb 1 q') eqn:E; [done|].
  intros [= <-]. split; [done|]. simpl. by rewrite E.
Qed.

Lemma construct_consistent newId now a s :
  construct newId now a = Ok s -> consistent s.
Proof.
  unfold construct. intros H.
  destruct (missing (a_contentId a)) eqn:Hc; [done|].
  destruct (missing (a_pageUrl a)) eqn:Hp; [done|].
  destruct (truthy (default [] (a_text a))) eqn:Ht; [|done]. simpl in H.
  destruct (a_tabId a) as [tab|]; [|done].
  destruct (_validateSpeed (default (Num 1) (a_speed a))) as [q|] eqn:Hq; [|done].
  destruct (_validateVolume (default (Num 1) (a_volume a))) as [v|] eqn:Hv; [|done].
  injection H as <-. unfold consistent. simpl.
  apply validateSpeed_stable in Hq as [_ Hq].
  apply validateVolume_stable in Hv as [_ Hv].
  repeat split; try done.
  - by destruct (a_contentId a).
  - by destruct (a_pageUrl a).
Qed.

Lemma updateState_consistent now u s :
  consistent s -> consistent (snd (updateState now u s)).
Proof.
  intros (Hw & Htw & Ht & Hc & Hp & Hq & Hv).
  destruct u as [[pl|] [pa|] [pos|] [sp|] [vo|]]; unfold updateState; simpl;
    repeat match goal with
      | |- context [_validateSpeed ?x] =>
          let E := fresh "E" in
          destruct (_validateSpeed x) eqn:E;
          [apply validateSpeed_stable in E as [_ E]|]
      | |- context [_validateVolume ?x] =>
          let E := fresh "E" in
          destruct (_validateVolume x) eqn:E;
          [apply validateVolume_stable in E as [_ E]|]
      end; simpl; unfold consistent; simpl; repeat split; done.
Qed.

#[local] Hint Resolve construct_consistent updateState_consistent : session.

Lemma reachable_consistent s : reachable s -> consistent s.
Proof. induction 1; eauto with session. Qed.

Lemma join_nonempty (sep : jsstring) (l : list jsstring) :
  l <> [] -> Forall (fun w => w <> []) l -> join sep l <> [].
Proof.
  intros Hl Hall. destruct Hall as [|w l Hw _]; [done|].
  simpl. destruct l; [done|]. by destruct w.
Qed.

Lemma remaining_text_nonempty (s : t) :
  reachable s -> (1 <= totalWords s)%Z -> getRemainingText s <> [].
Proof.
  intros Hr H1.
  pose proof (reachable_inRange s Hr) as [_ Hpos].
  pose proof (reachable_consistent s Hr) as (Hw & Htw & _).
  unfold getRemainingText, slice.
  replace (Z.of_nat (length (words s)) <=? currentPosition s)%Z
    with false by (symmetry; lia).
  replace (currentPosition s <? 0)%Z with false by (symmetry; lia).
  apply join_nonempty.
  - intros E. apply (f_equal length) in E.
    rewrite length_skipn in E. simpl in E. lia.
  - rewrite Hw. apply Forall_drop, extractWords_nonEmpty.
Qed.

Lemma trimStart_blank s :
  trimStart s = [] -> Forall (fun c => isWhiteSpace c = true) s.
Proof.
  induction s as [|c s IH]; simpl; [constructor|].
  destruct (isWhiteSpace c) eqn:E; [|done]. intros H. constructor; auto.
Qed.

Lemma trim_blank s : trim s = [] -> Forall (fun c => isWhiteSpace c = true) s.
Proof.
  unfold trim, trimEnd. intros H.
  apply (f_equal (@rev ascii)) in H. rewrite rev_involutive in H. simpl in H.
  apply trimStart_blank, Forall_rev in H. rewrite rev_involutive in H.
  destruct (trimStart s) as [|c r] eqn:E; [by apply trimStart_blank|].
  exfalso. inversion H as [|? ? Hc _]; subst.
  clear -E Hc. induction s as [|d s IH]; simpl in E; [done|].
  destruct (isWhiteSpace d) eqn:Ed; [by apply IH|].
  injection E as -> ->. congruence.
Qed.

Lemma splitWs_aux_blank s b :
  Forall (fun c => isWhiteSpace c = true) s ->
  Forall (fun p => p = []) (splitWs_aux s [] b).
Proof.
  intros H. revert b. induction H as [|c s Hc _ IH]; intros b; simpl.
  - by repeat constructor.
  - rewrite Hc. destruct b; [apply IH|]. constructor; [done|apply IH].
Qed.

Lemma blank_text_has_no_words (text : jsstring) :
  trim text = [] -> _extractWords text = [].
Proof.
  intros H. unfold _extractWords. destruct (negb (truthy text)); [done|].
  pose proof (splitWs_aux_blank text false (trim_blank text H)) as Hp.
  fold (splitWs text) in Hp.
  induction Hp as [|p l -> _ IH]; simpl; [done|]. exact IH.
Qed.

(** X5.  For every session the code can produce: when the text has at
    least one word, [getCurrentWord()] is a word of the text (never
    [null]), [getRemainingText()] is not empty and [isComplete()] is
    false, whatever updates the session has seen; when the text has no
    word, [getCurrentWord()] is [null], [getRemainingText()] is empty and
    [isComplete()] is true. *)
Theorem current_word_and_completion (s : t) :
  reachable s ->
  ((1 <= totalWords s)%Z ->
     (exists w, getCurrentWord s = Some w /\ w ∈ words s)
     /\ getRemainingText s <> []
     /\ isComplete s = false)
  /\ (totalWords s = 0%Z ->
      getCurrentWord s = None /\ getRemainingText s = []
      /\ isComplete s = true).
Proof.
  intros Hr.
  pose proof (reachable_inRange s Hr) as [_ Hpos].
  pose proof (reachable_consistent s Hr) as (Hw & Htw & _).
  split.
  - intros H1.
    assert (Z.to_nat (currentPosition s) < length (words s))%nat as Hlt by lia.
    destruct (lookup_lt_is_Some_2 (words s) _ Hlt) as [w Hwl].
    split; [|split].
    + exists w. unfold getCurrentWord.
      replace (0 <=? currentPosition s)%Z with true by (symmetry; lia).
      replace (currentPosition s <? Z.of_nat (length (words s)))%Z
        with true by (symmetry; lia).
      simpl. split; [done|]. by eapply list_elem_of_lookup_2.
    + by apply remaining_text_nonempty.
    + unfold isComplete. lia.
  - intros H0. split; [|split].
    + unfold getCurrentWord.
      replace (currentPosition s <? Z.of_nat (length (words s)))%Z
        with false by (symmetry; lia).
      by rewrite andb_false_r.
    + unfold getRemainingText.
      by replace (Z.of_nat (length (words s)) <=? currentPosition s)%Z
        with true by (symmetry; lia).
    + unfold isComplete. lia.
Qed.

Lemma current_word_and_completion_witness :
  exists s,
    construct "session_1" 0 (sampleArgs "one two three" 1) = Ok s
    /\ isComplete
         (snd (updateState 3 (mkUpdate None None (Some 3%Z) None None) s))
       = false.
Proof.
  eexists. split; [vm_compute; reflexivity|].
  match goal with |- isComplete ?s' = false =>
    destruct (current_word_and_completion s') as [H _]
  end.
  - apply reach_update.
    apply (reach_new "session_1" 0 (sampleArgs "one two three" 1)).
    vm_compute. reflexivity.
  - apply H. vm_compute. discriminate.
Defined.

(** *** Storage round trip *)

(** X6.  What [toJSON()] gives cannot be read back: the object has no
    [text], so for every session the code can produce
    [AudioSession.fromJSON(session.toJSON())] throws
    [Error('text is required')]. *)
Theorem toJSON_cannot_be_restored (newId : string) (now : Z) (s : t) :
  reachable s ->
  fromJSON newId now (toJSON s) = Throw (GenericError "text is required").
Proof.
  intros Hr.
  pose proof (reachable_consistent s Hr) as (_ & _ & _ & Hc & Hp & _).
  unfold fromJSON, construct, toJSON. simpl j_contentId. simpl j_pageUrl.
  cbn [a_contentId a_pageUrl a_text j_text].
  rewrite Hc, Hp. reflexivity.
Qed.

Lemma toJSON_cannot_be_restored_witness :
  exists s,
    construct "session_1" 0 (sampleArgs "one two three" 1) = Ok s
    /\ fromJSON "session_2" 9 (toJSON s)
       = Throw (GenericError "text is required").
Proof.
  eexists. split; [vm_compute; reflexivity|].
  apply toJSON_cannot_be_restored.
  apply (reach_new "session_1" 0 (sampleArgs "one two three" 1)).
  vm_compute. reflexivity.
Defined.

(** X7.  With the text added to the stored object, [fromJSON] gives back
    the session: every field is the one of the session that was stored,
    except that a stored volume of 0 comes back as 1 (the [||] default
    replaces it). *)
Theorem fromJSON_restores_with_text (newId : string) (now : Z) (s : t) :
  reachable s ->
  fromJSON newId now (withText (text s) (toJSON s))
  = Ok (if Qeq_bool (volume s) 0 then set_volume 1 s else s).
Proof.
  intros Hr.
  pose proof (reachable_inRange s Hr) as [Htw Hpos].
  pose proof (reachable_consistent s Hr) as (Hw & Ht & Htr & Hc & Hp & Hq & Hv).
  unfold fromJSON, construct, withText, toJSON.
  cbn [j_contentId j_pageUrl j_text j_currentPosition j_speed j_volume
       j_tabId j_sessionId j_isPlaying j_isPaused j_createdAt j_lastActiveAt
       a_contentId a_pageUrl a_text a_startWordIndex a_speed a_volume a_tabId
       default].
  unfold id. rewrite Hc, Hp, Htr. cbn [negb].
  assert (clampPosition (currentPosition s)
            (Z.of_nat (length (_extractWords (text s)))) = currentPosition s)
    as ->.
  { rewrite <- Hw, <- Ht. unfold clampPosition. lia. }
  assert (numberOr (Some (Num (speed s))) (Num 1) = Num (speed s)) as ->.
  { unfold numberOr, num_truthy.
    destruct (Qeq_bool (speed s) 0) eqn:E; [|done].
    apply Qeq_bool_iff in E. exfalso.
    simpl in Hq.
    destruct (Qltb (speed s) (1 # 2) || Qltb (2 # 1) (speed s)) eqn:E'; [done|].
    apply orb_false_iff in E' as [E' _]. unfold Qltb in E'.
    apply negb_false_iff, Qle_bool_iff in E'. rewrite E in E'. by vm_compute in E'. }
  rewrite Hq.
  unfold numberOr, num_truthy.
  destruct (Qeq_bool (volume s) 0) eqn:E; cbn [negb].
  - simpl. rewrite <- Hw, <- Ht. by destruct s.
  - rewrite Hv. rewrite <- Hw, <- Ht. by destruct s.
Qed.

Lemma fromJSON_restores_with_text_witness :
  exists s,
    construct "session_1" 0 (sampleArgs "one two three" 1) = Ok s
    /\ fromJSON "session_2" 9 (withText (text s) (toJSON s)) = Ok s.
Proof.
  eexists. split; [vm_compute; reflexivity|].
  match goal with |- fromJSON _ _ (withText _ (toJSON ?s')) = _ =>
    rewrite (fromJSON_restores_with_text "session_2" 9 s')
  end.
  - reflexivity.
  - apply (reach_new "session_1" 0 (sampleArgs "one two three" 1)).
    vm_compute. reflexivity.
Defined.

End SessionState.

(** ** The controller *)

Module Controller.
Import SpeechController.
Local Open Scope ctl_scope.

Lemma updateState_run env r u c s :
  store c !! r = Some s ->
  updateState env r u c
  = (fst (AudioSession.updateState (now env) u s),
     set_store (<[r := snd (AudioSession.updateState (now env) u s)]> (store c)) c,
     []).
Proof.
  intros Hs. unfold updateState, bind, load, modify. rewrite Hs.
  destruct (AudioSession.updateState (now env) u s) as [[[]|e] s']; reflexivity.
Qed.

Lemma getSession_run c id r :
  activeSessions c !! id = Some r -> _getSession id c = (Ok r, c, []).
Proof. intros H. unfold _getSession, bind, get. by rewrite H. Qed.

Lemma flags_update now (a b : bool) s :
  AudioSession.updateState now
    (AudioSession.mkUpdate (Some a) (Some b) None None None) s
  = (Ok tt,
     AudioSession.set_lastActiveAt now
       (AudioSession.set_isPaused b (AudioSession.set_isPlaying a s))).
Proof. reflexivity. Qed.

Lemma pauseSpeech_run env c id r s :
  registered c id r s ->
  pauseSpeech env id c
  = (Ok tt, set_store (<[r := pausedAt (now env) s]> (store c)) c,
     if idEq (currentSessionId c) id && speaking env then [Pause] else []).
Proof.
  intros [Hid Hs]. unfold pauseSpeech.
  unfold bind at 1. rewrite (getSession_run c id r Hid).
  unfold bind at 1. unfold get at 1.
  unfold bind at 1.
  destruct (idEq (currentSessionId c) id && speaking env); simpl;
    rewrite (updateState_run env r _ c s Hs), flags_update; reflexivity.
Qed.

(** C5.  For a registered session, two [pauseSpeech] calls in a row both
    succeed and leave the controller in exactly the state that one call
    produces ([isPlaying = false], [isPaused = true]): the state after the
    second call is the state the second call alone gives, it differs from
    the state after the first call in [lastActiveAt] only, and not at all
    when the clock has not moved.  [resumeSpeech] on a session that is not
    paused throws the invalid-state error and changes nothing. *)
Theorem pause_idempotent_resume_guarded env1 env2 c id r s :
  registered c id r s ->
  (exists c1 c2 tr1 tr2,
     pauseSpeech env1 id c = (Ok tt, c1, tr1)
     /\ pauseSpeech env2 id c1 = (Ok tt, c2, tr2)
     /\ registered c1 id r (pausedAt (now env1) s)
     /\ registered c2 id r (pausedAt (now env2) s)
     /\ AudioSession.isPlaying (pausedAt (now env2) s) = false
     /\ AudioSession.isPaused (pausedAt (now env2) s) = true
     /\ pausedAt (now env2) s
        = AudioSession.set_lastActiveAt (now env2) (pausedAt (now env1) s)
     /\ (now env2 = now env1 -> c2 = c1)
     /\ fst (fst (pauseSpeech env2 id c)) = Ok tt
     /\ snd (fst (pauseSpeech env2 id c)) = c2)
  /\ (AudioSession.isPaused s = false ->
      resumeSpeech env1 id c
      = (Throw (GenericError "Invalid session state - session is not paused"),
         c, [])).
Proof.
  intros Hreg. pose proof Hreg as [Hid Hs]. split.
  - assert (registered
              (set_store (<[r := pausedAt (now env1) s]> (store c)) c) id r
              (pausedAt (now env1) s)) as Hreg1.
    { split; simpl; [done|]. apply lookup_insert_eq. }
    do 4 eexists.
    split; [by apply pauseSpeech_run|].
    split; [by apply pauseSpeech_run|].
    split; [done|].
    assert (pausedAt (now env2) (pausedAt (now env1) s) = pausedAt (now env2) s)
      as -> by (by destruct s).
    unfold set_store at 1. simpl. rewrite insert_insert_eq.
    split; [split; simpl; [done|apply lookup_insert_eq]|].
    split; [done|]. split; [done|].
    split; [by destruct s|].
    split; [by intros ->|].
    rewrite (pauseSpeech_run env2 c id r s Hreg). simpl.
    repeat split.
  - intros Hp. unfold resumeSpeech.
    unfold bind at 1. rewrite (getSession_run c id r Hid).
    unfold bind at 1. unfold load at 1. rewrite Hs.
    rewrite Hp. reflexivity.
Qed.

Lemma started_registered :
  exists s, registered (started "hello world") "session_a" 0 s
    /\ AudioSession.isPlaying s = true.
Proof. eexists. split; [split; vm_compute; reflexivity|]. reflexivity. Qed.

Lemma pause_idempotent_resume_guarded_witness :
  exists c2,
    snd (fst (pauseSpeech (sampleEnv 2 "x") "session_a"
                (snd (fst (pauseSpeech (sampleEnv 1 "x") "session_a"
                             (started "hello world")))))) = c2
    /\ snd (fst (pauseSpeech (sampleEnv 2 "x") "session_a"
                   (started "hello world"))) = c2.
Proof.
  destruct started_registered as (s & Hreg & _).
  destruct (pause_idempotent_resume_guarded (sampleEnv 1 "x") (sampleEnv 2 "x")
              (started "hello world") "session_a" 0 s Hreg)
    as [(c1 & c2 & tr1 & tr2 & H1 & H2 & _ & _ & _ & _ & _ & _ & _ & H3) _].
  exists c2. rewrite H1. simpl. rewrite H2. simpl. by split.
Defined.

(** C6.  For a registered session, [setSpeed] with a value below 0.5 or
    above 2.0 and [setVolume] with a value below 0.0 or above 1.0 throw the
    invalid-value error, have no effect on the engine and leave the whole
    controller state, hence the session's speed and volume, unchanged: the
    value is not clamped. *)
Theorem out_of_range_rejected env c id r s (q : Q) :
  registered c id r s ->
  ((q < 1#2 \/ 2#1 < q)%Q ->
     setSpeed env id (Num q) c
     = (Throw (GenericError
                 "Invalid speed value - must be between 0.5 and 2.0"), c, []))
  /\ ((q < 0 \/ 1 < q)%Q ->
     setVolume env id (Num q) c
     = (Throw (GenericError
                 "Invalid volume value - must be between 0.0 and 1.0"), c, [])).
Proof.
  intros [Hid Hs].
  assert (forall a b : Q, (a < b)%Q -> Qltb a b = true) as Hlt.
  { intros a b Hab. unfold Qltb. apply negb_true_iff.
    destruct (Qle_bool b a) eqn:E; [|done].
    apply Qle_bool_iff in E. exfalso. by apply (Qlt_not_le a b). }
  split; intros Hq.
  - unfold setSpeed. unfold bind at 1. rewrite (getSession_run c id r Hid).
    unfold num_lt, num_gt.
    destruct Hq as [Hq|Hq]; rewrite (Hlt _ _ Hq), ?orb_true_r; reflexivity.
  - unfold setVolume. unfold bind at 1. rewrite (getSession_run c id r Hid).
    unfold num_lt, num_gt.
    destruct Hq as [Hq|Hq]; rewrite (Hlt _ _ Hq), ?orb_true_r; reflexivity.
Qed.

Lemma out_of_range_rejected_witness :
  setSpeed (sampleEnv 3 "x") "session_a" (Num (5#2)) (started "hello world")
  = (Throw (GenericError "Invalid speed value - must be between 0.5 and 2.0"),
     started "hello world", [])
  /\ setVolume (sampleEnv 3 "x") "session_a" (Num (3#2)) (started "hello world")
  = (Throw (GenericError "Invalid volume value - must be between 0.0 and 1.0"),
     started "hello world", []).
Proof.
  destruct started_registered as (s & Hreg & _).
  split.
  - apply (out_of_range_rejected (sampleEnv 3 "x") (started "hello world")
             "session_a" 0 s (5#2) Hreg).
    right. reflexivity.
  - apply (out_of_range_rejected (sampleEnv 3 "x") (started "hello world")
             "session_a" 0 s (3#2) Hreg).
    right. reflexivity.
Defined.

(** C7.  With ten active sessions (the limit of the constructor) every
    [startSpeech] call fails and leaves the controller as it was, so no
    session is created or registered and the count remains 10; for a
    request that passes validation on a platform with speech support the
    error is [SessionLimitError 10]. *)
Theorem session_limit env request c :
  maxConcurrentSessions c = 10 ->
  size (activeSessions c) = 10 ->
  (exists e, startSpeech env request c = (Throw e, c, []))
  /\ (forall req tab,
        request = Some req ->
        AudioSession.missing (r_contentId req) = false ->
        noText (r_text req) = false ->
        r_tabId req = Some tab ->
        supported env = true ->
        startSpeech env request c = (Throw (SessionLimitError 10), c, []))
  /\ getActiveSessionCount (snd (fst (startSpeech env request c))) = 10
  /\ store (snd (fst (startSpeech env request c))) = store c.
Proof.
  intros Hmax Hsize.
  assert (forall req tab,
            request = Some req ->
            AudioSession.missing (r_contentId req) = false ->
            noText (r_text req) = false ->
            r_tabId req = Some tab ->
            startSpeech env request c
            = (Throw (if supported env then SessionLimitError 10
                      else SpeechNotSupportedError), c, [])) as Hvalid.
  { intros req tab -> Hc Ht Htab. unfold startSpeech, _validateStartRequest.
    rewrite Hc, Ht, Htab. unfold bind, ret, get. simpl.
    destruct (supported env); simpl; [|done].
    rewrite Hmax, Hsize. reflexivity. }
  assert (exists e, startSpeech env request c = (Throw e, c, [])) as [e He].
  { destruct request as [req|]; [|by eexists].
    destruct (AudioSession.missing (r_contentId req)) eqn:Hc.
    { eexists. unfold startSpeech, _validateStartRequest, bind, throw.
      by rewrite Hc. }
    destruct (noText (r_text req)) eqn:Ht.
    { eexists. unfold startSpeech, _validateStartRequest, bind, throw.
      by rewrite Hc, Ht. }
    destruct (r_tabId req) as [tab|] eqn:Htab.
    - eexists. by eapply Hvalid.
    - eexists. unfold startSpeech, _validateStartRequest, bind, throw.
      by rewrite Hc, Ht, Htab. }
  split; [by exists e|]. split.
  - intros req tab Hreq Hc Ht Htab Hsup.
    rewrite (Hvalid req tab Hreq Hc Ht Htab). by rewrite Hsup.
  - rewrite He. simpl. by split.
Qed.

Lemma session_limit_witness :
  startSpeech (sampleEnv 1 "s10") (Some (sampleRequest "one more")) tenSessions
  = (Throw (SessionLimitError 10), tenSessions, [])
  /\ getActiveSessionCount tenSessions = 10.
Proof.
  split; [|vm_compute; reflexivity].
  destruct (session_limit (sampleEnv 1 "s10")
              (Some (sampleRequest "one more")) tenSessions
              ltac:(vm_compute; reflexivity) ltac:(vm_compute; reflexivity))
    as (_ & H & _).
  apply (H (sampleRequest "one more") 1%Z); reflexivity.
Defined.

Lemma calculateWordIndex_ge charIndex s :
  (AudioSession.currentPosition s <= _calculateWordIndex charIndex s)%Z.
Proof. unfold _calculateWordIndex. lia. Qed.

Lemma broadcast_run c r s :
  store c !! r = Some s ->
  _broadcastSessionUpdate r c
  = (Ok tt, c, [SessionUpdated (AudioSession.tabId s) s]).
Proof.
  intros Hs. unfold _broadcastSessionUpdate, bind, load, emit. by rewrite Hs.
Qed.

Lemma onboundary_step env u (isWord : bool) (charIndex : nat) c s :
  store c !! u_session u = Some s ->
  AudioSession.reachable s ->
  exists c' tr s',
    onboundary env u isWord charIndex c = (Ok tt, c', tr)
    /\ store c' !! u_session u = Some s'
    /\ AudioSession.reachable s'
    /\ AudioSession.totalWords s' = AudioSession.totalWords s
    /\ (AudioSession.currentPosition s <= AudioSession.currentPosition s')%Z
    /\ (0 <= AudioSession.currentPosition s'
        <= AudioSession.totalWords s')%Z.
Proof.
  intros Hs Hr.
  pose proof (SessionState.reachable_inRange s Hr) as [Htw Hpos].
  destruct isWord; unfold onboundary, when.
  - set (upd := AudioSession.mkUpdate None None
                  (Some (_calculateWordIndex charIndex s)) None None).
    set (s' := snd (AudioSession.updateState (now env) upd s)).
    exists (set_store (<[u_session u := s']> (store c)) c),
      [SessionUpdated (AudioSession.tabId s') s'], s'.
    assert (store (set_store (<[u_session u := s']> (store c)) c)
              !! u_session u = Some s') as Hs' by apply lookup_insert_eq.
    pose proof (AudioSession.reach_update (now env) upd s Hr) as Hr'.
    fold s' in Hr'.
    pose proof (SessionState.reachable_inRange s' Hr') as [Htw' Hpos'].
    destruct (SessionState.updateState_frame (now env) upd s)
      as (_ & _ & _ & Etw & Epos & _).
    fold s' in Etw, Epos.
    split.
    + unfold bind at 1. unfold load at 1. rewrite Hs.
      unfold bind at 1. fold upd.
      rewrite (updateState_run env (u_session u) upd c s Hs). fold s'.
      assert (fst (AudioSession.updateState (now env) upd s) = Ok tt) as ->
        by reflexivity.
      by rewrite (broadcast_run _ _ s' Hs').
    + split; [done|]. split; [done|]. split; [done|].
      change (AudioSession.u_currentPosition upd)
        with (Some (_calculateWordIndex charIndex s)) in Epos.
      pose proof (calculateWordIndex_ge charIndex s).
      unfold AudioSession.clampPosition in Epos. lia.
  - exists c, [], s. repeat split; try done; lia.
Qed.

(** C9.  For every session the code can produce and every sequence of
    boundary events with any (non-negative) character indices, every event
    is handled without an error and the positions of the session, from the
    position before the first event through the position after each event,
    never decrease; they also stay within [0, totalWords]. *)
Theorem boundary_monotone (events : list (Env * bool * nat)) u c s :
  store c !! u_session u = Some s ->
  AudioSession.reachable s ->
  (forall env isWord charIndex,
     fst (fst (onboundary env u isWord charIndex c)) = Ok tt)
  /\ exists positions,
       boundaryPositions events u c = map Some positions
       /\ length positions = length events
       /\ Sorted Z.le (AudioSession.currentPosition s :: positions)
       /\ Forall (fun z => (0 <= z <= AudioSession.totalWords s)%Z) positions.
Proof.
  intros Hs Hr. split.
  { intros env isWord charIndex.
    destruct (onboundary_step env u isWord charIndex c s Hs Hr)
      as (c' & tr & s' & -> & _). reflexivity. }
  revert c s Hs Hr.
  induction events as [|[[env isWord] charIndex] events IH]; intros c s Hs Hr.
  - exists []. repeat split; simpl; auto.
  - destruct (onboundary_step env u isWord charIndex c s Hs Hr)
      as (c' & tr & s' & Hrun & Hs' & Hr' & Etw & Hle & Hb).
    destruct (IH c' s' Hs' Hr') as (positions & Htrace & Hlen & Hsorted & Hall).
    exists (AudioSession.currentPosition s' :: positions).
    simpl. rewrite Hrun. simpl. rewrite Hs'. simpl. rewrite Htrace.
    repeat split.
    + by rewrite Hlen.
    + constructor; [done|]. by constructor.
    + constructor; [lia|]. by rewrite <- Etw.
Qed.

Lemma boundary_monotone_witness :
  exists positions,
    boundaryPositions
      [(sampleEnv 4 "x", true, 4); (sampleEnv 5 "x", false, 9);
       (sampleEnv 6 "x", true, 30)]
      (mkUtterance (lit "one two three") None 1 1 1 0)
      (started "one two three")
    = map Some positions
    /\ Sorted Z.le (0%Z :: positions).
Proof.
  assert (exists s, store (started "one two three") !! 0 = Some s
                    /\ AudioSession.reachable s
                    /\ AudioSession.currentPosition s = 0%Z)
    as (s & Hs & Hr & Hp).
  { eexists (snd (AudioSession.updateState 0
                (AudioSession.mkUpdate (Some true) (Some false) None None None)
                _)).
    split; cycle 1.
    - split.
      + eapply AudioSession.reach_update.
        eapply (AudioSession.reach_new "session_a" 0
                  (sessionArgs (sampleRequest "one two three"))).
        vm_compute. reflexivity.
      + reflexivity.
    - vm_compute. reflexivity. }
  destruct (boundary_monotone
              [(sampleEnv 4 "x", true, 4); (sampleEnv 5 "x", false, 9);
               (sampleEnv 6 "x", true, 30)]
              (mkUtterance (lit "one two three") None 1 1 1 0)
              (started "one two three") s Hs Hr)
    as (_ & positions & Htrace & _ & Hsorted & _).
  exists positions. rewrite Hp in Hsorted. by split.
Defined.

Example boundary_positions_accumulate :
  boundaryPositions
    [(sampleEnv 4 "x", true, 4); (sampleEnv 5 "x", true, 4);
     (sampleEnv 6 "x", true, 4)]
    (mkUtterance (lit "one two three four") None 1 1 1 0)
    (started "one two three four")
  = [Some 1%Z; Some 2%Z; Some 2%Z].
Proof. vm_compute. reflexivity. Qed.

(** What [onend] does to a session the code can produce: both flags are
    cleared, the requested position [totalWords] is clamped to
    [totalWords - 1] (0 for a text without words), and the controller's
    current utterance and session id are cleared when the session is the
    current one. *)
Lemma onend_run env u c s :
  store c !! u_session u = Some s ->
  AudioSession.reachable s ->
  exists s',
    onend env u c
    = (Ok tt,
       (if idEq (currentSessionId c) (AudioSession.sessionId s)
        then set_current None None else id)
         (set_store (<[u_session u := s']> (store c)) c),
       [SessionUpdated (AudioSession.tabId s') s'])
    /\ AudioSession.isPlaying s' = false
    /\ AudioSession.isPaused s' = false
    /\ AudioSession.totalWords s' = AudioSession.totalWords s
    /\ AudioSession.currentPosition s'
       = Z.max 0 (AudioSession.totalWords s - 1).
Proof.
  intros Hs Hr.
  set (upd := AudioSession.mkUpdate (Some false) (Some false)
                (Some (AudioSession.totalWords s)) None None).
  set (s' := snd (AudioSession.updateState (now env) upd s)).
  exists s'. split.
  - unfold onend. unfold bind at 1. unfold load at 1. rewrite Hs.
    unfold bind at 1. fold upd.
    rewrite (updateState_run env (u_session u) upd c s Hs). fold s'.
    assert (fst (AudioSession.updateState (now env) upd s) = Ok tt) as ->
      by reflexivity.
    unfold bind at 1.
    rewrite (broadcast_run (set_store (<[u_session u := s']> (store c)) c)
               (u_session u) s') by apply lookup_insert_eq.
    unfold bind, get, when. simpl.
    by destruct (idEq (currentSessionId c) (AudioSession.sessionId s)).
  - destruct (SessionState.updateState_frame (now env) upd s)
      as (_ & _ & _ & Etw & Epos & Epl & Epa).
    fold s' in Etw, Epos, Epl, Epa.
    pose proof (SessionState.reachable_inRange s Hr) as [Htw _].
    change (AudioSession.u_currentPosition upd)
      with (Some (AudioSession.totalWords s)) in Epos.
    repeat split; try done. rewrite Epos. unfold AudioSession.clampPosition. lia.
Qed.

(** C3, evaluated.  A session for "hello world" is started and its
    utterance ends: the flags are cleared and the engine focus is released,
    but the position is 1 while [totalWords] is 2, and [isComplete()] is
    false. *)
Lemma onend_position_below_total :
  exists r c1 tr1 u c2 tr2 s,
    startSpeech (sampleEnv 0 "session_a") (Some (sampleRequest "hello world"))
      create = (Ok r, c1, tr1)
    /\ currentUtterance c1 = Some u
    /\ onend (sampleEnv 9 "x") u c1 = (Ok tt, c2, tr2)
    /\ store c2 !! r = Some s
    /\ AudioSession.totalWords s = 2%Z
    /\ AudioSession.currentPosition s = 1%Z
    /\ AudioSession.isComplete s = false
    /\ AudioSession.isPlaying s = false
    /\ AudioSession.isPaused s = false
    /\ currentUtterance c2 = None
    /\ currentSessionId c2 = None.
Proof.
  do 7 eexists.
  split; [vm_compute; reflexivity|].
  split; [vm_compute; reflexivity|].
  split; [vm_compute; reflexivity|].
  split; [vm_compute; reflexivity|].
  repeat split.
Qed.

(** *** Unknown sessions, stopping, errors of the engine *)

Lemma bind_ok {A B} (m : M A) (f : A -> M B) c a c' :
  m c = (Ok a, c', []) -> bind m f c = f a c'.
Proof. intros H. unfold bind. rewrite H. by destruct (f a c') as [[? ?] ?]. Qed.

Lemma bind_ok_trace {A B} (m : M A) (f : A -> M B) c a c' tr :
  m c = (Ok a, c', tr) ->
  bind m f c
  = (fst (fst (f a c')), snd (fst (f a c')), tr ++ snd (f a c')).
Proof. intros H. unfold bind. rewrite H. by destruct (f a c') as [[? ?] ?]. Qed.

Lemma bind_throw {A B} (m : M A) (f : A -> M B) c e c' tr :
  m c = (Throw e, c', tr) -> bind m f c = (Throw e, c', tr).
Proof. intros H. unfold bind. by rewrite H. Qed.

Lemma updateState_ok env r u c s s' :
  store c !! r = Some s ->
  AudioSession.updateState (now env) u s = (Ok tt, s') ->
  updateState env r u c = (Ok tt, set_store (<[r := s']> (store c)) c, []).
Proof. intros Hs Hu. by rewrite (updateState_run env r u c s Hs), Hu. Qed.

Lemma load_run c r s : store c !! r = Some s -> load r c = (Ok s, c, []).
Proof. intros H. unfold load. by rewrite H. Qed.

Lemma getSession_missing c id :
  activeSessions c !! id = None ->
  _getSession id c = (Throw (SessionNotFoundError id), c, []).
Proof. intros H. unfold _getSession, bind, get, throw. by rewrite H. Qed.

(** X8.  A session id that is not registered: [pauseSpeech],
    [resumeSpeech], [stopSpeech], [setSpeed] and [setVolume] all throw
    [SessionNotFoundError] for that id, call nothing and leave the
    controller as it was; [getSession] returns [null]. *)
Theorem unknown_session_rejected env c id (v : number) :
  activeSessions c !! id = None ->
  pauseSpeech env id c = (Throw (SessionNotFoundError id), c, [])
  /\ resumeSpeech env id c = (Throw (SessionNotFoundError id), c, [])
  /\ stopSpeech id c = (Throw (SessionNotFoundError id), c, [])
  /\ setSpeed env id v c = (Throw (SessionNotFoundError id), c, [])
  /\ setVolume env id v c = (Throw (SessionNotFoundError id), c, [])
  /\ getSession id c = (Ok None, c, []).
Proof.
  intros H.
  repeat split;
    try (unfold pauseSpeech, resumeSpeech, stopSpeech, setSpeed, setVolume;
         unfold bind at 1; by rewrite (getSession_missing c id H)).
  unfold getSession, bind, get, ret. by rewrite H.
Qed.

Lemma unknown_session_rejected_witness :
  pauseSpeech (sampleEnv 1 "x") "session_b" (started "hello world")
  = (Throw (SessionNotFoundError "session_b"), started "hello world", []).
Proof.
  apply (unknown_session_rejected (sampleEnv 1 "x") (started "hello world")
           "session_b" NaN).
  vm_compute. reflexivity.
Defined.

(** X9.  [stopSpeech] on a registered session succeeds and removes exactly
    that registration: the count drops by one, every other id resolves as
    before, and a later [pauseSpeech] for the id throws
    [SessionNotFoundError].  The engine is cancelled and the current
    utterance and session id are cleared exactly when the session was the
    current one.  The session object itself stays in the store. *)
Theorem stop_removes_session env c id r s :
  registered c id r s ->
  exists c',
    stopSpeech id c
    = (Ok tt, c', if idEq (currentSessionId c) id then [Cancel] else [])
    /\ activeSessions c' = delete id (activeSessions c)
    /\ S (getActiveSessionCount c') = getActiveSessionCount c
    /\ store c' = store c
    /\ (if idEq (currentSessionId c) id
        then currentUtterance c' = None /\ currentSessionId c' = None
        else currentUtterance c' = currentUtterance c
             /\ currentSessionId c' = currentSessionId c)
    /\ pauseSpeech env id c' = (Throw (SessionNotFoundError id), c', []).
Proof.
  intros [Hid Hs].
  exists (set_activeSessions (delete id (activeSessions c))
            (if idEq (currentSessionId c) id then set_current None None c
             else c)).
  split.
  - unfold stopSpeech. unfold bind at 1. rewrite (getSession_run c id r Hid).
    unfold bind, get, when, emit, modify. simpl.
    by destruct (idEq (currentSessionId c) id).
  - split; [by destruct (idEq (currentSessionId c) id)|].
    split.
    { unfold getActiveSessionCount.
      assert (activeSessions
                (set_activeSessions (delete id (activeSessions c))
                   (if idEq (currentSessionId c) id
                    then set_current None None c else c))
              = delete id (activeSessions c)) as -> by done.
      rewrite map_size_delete, Hid. simpl.
      assert (size (activeSessions c) <> 0).
      { intros E. apply map_size_empty_iff in E. by rewrite E in Hid. }
      lia. }
    split; [by destruct (idEq (currentSessionId c) id)|].
    split; [by destruct (idEq (currentSessionId c) id)|].
    unfold pauseSpeech. unfold bind at 1.
    rewrite getSession_missing; [done|]. simpl. apply lookup_delete_eq.
Qed.

Lemma stop_removes_session_witness :
  exists c',
    stopSpeech "session_a" (started "hello world") = (Ok tt, c', [Cancel])
    /\ getActiveSessionCount c' = 0.
Proof.
  assert (exists s, registered (started "hello world") "session_a" 0 s)
    as [s Hreg].
  { eexists. split; vm_compute; reflexivity. }
  destruct (stop_removes_session (sampleEnv 1 "x") (started "hello world")
              "session_a" 0 s Hreg) as (c' & Hrun & _ & Hn & _).
  exists c'. split; [exact Hrun|].
  change (getActiveSessionCount (started "hello world")) with 1 in Hn.
  by injection Hn.
Defined.

(** X10.  An error of the engine: [onerror] clears both flags of the
    utterance's session and keeps its position; the registry and the
    current utterance and session id stay as they are (the focus is not
    released, unlike in [onend]); the error is sent to the session's tab
    when the session is still registered under its id, and to nobody when
    the id is no longer registered. *)
Theorem onerror_stops_session env u (error : string) c s :
  store c !! u_session u = Some s ->
  let c' := set_store (<[u_session u := stoppedAt (now env) s]> (store c)) c in
  (activeSessions c !! AudioSession.sessionId s = Some (u_session u) ->
     onerror env u error c
     = (Ok tt, c',
        [SessionErrorMsg (AudioSession.tabId s)
           ("Speech synthesis error: " +:+ error)
           (AudioSession.sessionId s)]))
  /\ (activeSessions c !! AudioSession.sessionId s = None ->
      onerror env u error c = (Ok tt, c', []))
  /\ AudioSession.isPlaying (stoppedAt (now env) s) = false
  /\ AudioSession.isPaused (stoppedAt (now env) s) = false
  /\ AudioSession.currentPosition (stoppedAt (now env) s)
     = AudioSession.currentPosition s
  /\ activeSessions c' = activeSessions c
  /\ currentUtterance c' = currentUtterance c
  /\ currentSessionId c' = currentSessionId c.
Proof.
  intros Hs c1.
  assert (store c1 !! u_session u = Some (stoppedAt (now env) s)) as Hs1
    by apply lookup_insert_eq.
  split; [|split].
  - intros Hreg. unfold onerror. unfold bind at 1.
    rewrite (updateState_run env (u_session u) _ c s Hs), flags_update.
    cbn [fst snd]. fold (stoppedAt (now env) s). fold c1.
    unfold bind at 1. unfold load at 1. rewrite Hs1.
    unfold _broadcastError, bind, get. simpl. rewrite Hreg.
    unfold load. rewrite Hs1. reflexivity.
  - intros Hreg. unfold onerror. unfold bind at 1.
    rewrite (updateState_run env (u_session u) _ c s Hs), flags_update.
    cbn [fst snd]. fold (stoppedAt (now env) s). fold c1.
    unfold bind at 1. unfold load at 1. rewrite Hs1.
    unfold _broadcastError, bind, get. simpl. rewrite Hreg. reflexivity.
  - repeat split; by destruct s.
Qed.

Lemma onerror_stops_session_witness :
  exists c',
    onerror (sampleEnv 7 "x") (mkUtterance (lit "hello world") None 1 1 1 0)
      "network" (started "hello world")
    = (Ok tt, c',
       [SessionErrorMsg 1 "Speech synthesis error: network" "session_a"])
    /\ currentSessionId c' = Some "session_a"%string.
Proof.
  assert (exists s, store (started "hello world") !! 0 = Some s
                    /\ AudioSession.sessionId s = "session_a"%string
                    /\ AudioSession.tabId s = 1%Z) as (s & Hs & Hid & Htab).
  { eexists. split; [vm_compute; reflexivity|]. by split. }
  destruct (onerror_stops_session (sampleEnv 7 "x")
              (mkUtterance (lit "hello world") None 1 1 1 0) "network"
              (started "hello world") s Hs) as (H & _).
  eexists. split.
  - rewrite H; [by rewrite Hid, Htab|]. rewrite Hid. vm_compute. reflexivity.
  - reflexivity.
Defined.

(** *** Choosing a voice *)

(** X11.  [_getBestVoice] without a synthesis object throws
    [VoiceNotAvailableError]; with one it never throws and changes nothing,
    returns [null] exactly when no voice is available, returns an
    available voice otherwise, a local one whenever some available voice
    is local, and one whose language starts with "en" whenever some local
    voice has such a language. *)
Theorem best_voice_preference env c :
  (synth env = false ->
     _getBestVoice env c
     = (Throw (VoiceNotAvailableError (Some "en-US"%string)), c, []))
  /\ (synth env = true ->
      exists v,
        _getBestVoice env c = (Ok v, c, [])
        /\ (v = None <-> availableVoices env = [])
        /\ forall voice, v = Some voice ->
             voice ∈ availableVoices env
             /\ ((exists l, l ∈ availableVoices env /\ localService l = true)
                 -> localService voice = true)
             /\ ((exists l, l ∈ availableVoices env /\ localService l = true
                            /\ startsWith (lang l) (lit "en") = true)
                 -> startsWith (lang voice) (lit "en") = true)).
Proof.
  split; intros Hsynth; unfold _getBestVoice; rewrite Hsynth; [done|].
  cbn [negb]. fold (availableVoices env).
  set (available := availableVoices env).
  destruct (List.filter localService available) as [|first rest] eqn:Hlocal.
  - exists (head available). split; [done|]. split.
    { destruct available; simpl; split; done. }
    intros voice Hv.
    assert (forall l, l ∈ available -> localService l = false) as Hnone.
    { intros l Hl. destruct (localService l) eqn:E; [|done].
      assert (In l (List.filter localService available)) as Hin
        by (apply filter_In; split; [by apply list_elem_of_In|done]).
      rewrite Hlocal in Hin. destruct Hin. }
    split; [|split].
    + destruct available; [done|]. injection Hv as <-. by left.
    + intros (l & Hl & E). rewrite (Hnone l Hl) in E. done.
    + intros (l & Hl & E & _). rewrite (Hnone l Hl) in E. done.
  - assert (forall l, In l (first :: rest) ->
                      l ∈ available /\ localService l = true) as Hin.
    { intros l Hl. rewrite <- Hlocal in Hl. apply filter_In in Hl as [? ?].
      split; [by apply list_elem_of_In|done]. }
    destruct (List.find (fun v => startsWith (lang v) (lit "en"))
                (first :: rest)) as [m|] eqn:Hfind.
    + exists (Some m). split; [done|].
      apply find_some in Hfind as [Hm Hen].
      destruct (Hin m Hm) as [Hma Hml].
      split.
      { split; [done|]. intros E. rewrite E in Hma. by apply elem_of_nil in Hma. }
      intros voice [= <-]. by repeat split.
    + exists (Some first). split; [done|].
      destruct (Hin first ltac:(by left)) as [Hfa Hfl].
      split.
      { split; [done|]. intros E. rewrite E in Hfa. by apply elem_of_nil in Hfa. }
      intros voice [= <-]. split; [done|]. split; [done|].
      intros (l & Hl & El & Een).
      assert (In l (first :: rest)) as Hl'.
      { rewrite <- Hlocal. apply filter_In.
        split; [by apply list_elem_of_In|done]. }
      pose proof (find_none _ _ Hfind l Hl') as Hno. cbv beta in Hno.
      congruence.
Qed.

Lemma best_voice_preference_witness :
  _getBestVoice
    (mkEnv true true
       [mkVoice "Remote" (lit "en-GB") false;
        mkVoice "Lokal" (lit "de-DE") true;
        mkVoice "Local" (lit "en-US") true] [] false false 0 "x")
    create
  = (Ok (Some (mkVoice "Local" (lit "en-US") true)), create, []).
Proof.
  destruct (best_voice_preference
              (mkEnv true true
                 [mkVoice "Remote" (lit "en-GB") false;
                  mkVoice "Lokal" (lit "de-DE") true;
                  mkVoice "Local" (lit "en-US") true] [] false false 0 "x")
              create) as [_ H].
  destruct (H eq_refl) as (v & Hrun & _ & _).
  rewrite Hrun. vm_compute in Hrun. by injection Hrun as <-.
Defined.

(** *** Changing volume and speed, resuming *)

Lemma Qltb_le_false (a b : Q) : (b <= a)%Q -> Qltb a b = false.
Proof.
  intros H. unfold Qltb. apply negb_false_iff. by apply Qle_bool_iff.
Qed.

Lemma volume_update now (q : Q) s :
  (0 <= q)%Q -> (q <= 1)%Q ->
  AudioSession.updateState now
    (AudioSession.mkUpdate None None None None (Some (Num q))) s
  = (Ok tt, AudioSession.set_lastActiveAt now (AudioSession.set_volume q s)).
Proof.
  intros H0 H1. unfold AudioSession.updateState. simpl.
  by rewrite (Qltb_le_false q 0 H0), (Qltb_le_false 1 q H1).
Qed.

Lemma speed_update now (q : Q) s :
  (1#2 <= q)%Q -> (q <= 2#1)%Q ->
  AudioSession.updateState now
    (AudioSession.mkUpdate None None None (Some (Num q)) None) s
  = (Ok tt, AudioSession.set_lastActiveAt now (AudioSession.set_speed q s)).
Proof.
  intros H0 H1. unfold AudioSession.updateState. simpl.
  by rewrite (Qltb_le_false q (1#2) H0), (Qltb_le_false (2#1) q H1).
Qed.

Lemma getBestVoice_pure env :
  synth env = true -> exists v, forall c, _getBestVoice env c = (Ok v, c, []).
Proof.
  intros H. unfold _getBestVoice. rewrite H. cbn [negb].
  destruct (List.filter localService _) as [|first rest].
  - by eexists.
  - destruct (List.find _ _); by eexists.
Qed.

Lemma startSynthesis_run r voice c s :
  store c !! r = Some s ->
  AudioSession.getRemainingText s <> [] ->
  _startSpeechSynthesis r voice c
  = (Ok tt,
     set_current (Some (utteranceFor r voice s))
       (Some (AudioSession.sessionId s)) c,
     [Speak (utteranceFor r voice s)]).
Proof.
  intros Hs Hne. unfold _startSpeechSynthesis, bind, load. rewrite Hs.
  destruct (AudioSession.getRemainingText s) eqn:E; [done|].
  unfold utteranceFor. rewrite E. reflexivity.
Qed.

(** X12.  [setVolume] with a value in [0.0, 1.0] on a registered session
    succeeds: the session gets the volume and the time of the call as
    [lastActiveAt] and nothing else of it changes; the live utterance gets
    the volume when the session is the current one; the engine is not
    cancelled or restarted, and the updated session is sent to its tab. *)
Theorem setVolume_applies env c id r s (q : Q) :
  registered c id r s ->
  (0 <= q)%Q -> (q <= 1)%Q ->
  let s' := AudioSession.set_lastActiveAt (now env)
              (AudioSession.set_volume q s) in
  setVolume env id (Num q) c
  = (Ok tt,
     set_current
       (if idEq (currentSessionId c) id
        then set_uvolume q <$> currentUtterance c
        else currentUtterance c)
       (currentSessionId c)
       (set_store (<[r := s']> (store c)) c),
     [SessionUpdated (AudioSession.tabId s) s']).
Proof.
  intros [Hid Hs] H0 H1 s'.
  unfold setVolume. unfold bind at 1. rewrite (getSession_run c id r Hid).
  assert (num_lt (Num q) 0 || num_gt (Num q) 1 = false) as ->.
  { unfold num_lt, num_gt.
    by rewrite (Qltb_le_false q 0 H0), (Qltb_le_false 1 q H1). }
  unfold bind at 1.
  rewrite (updateState_run env r _ c s Hs), volume_update by done.
  cbn [fst snd]. fold s'.
  set (c1 := set_store (<[r := s']> (store c)) c).
  assert (store c1 !! r = Some s') as Hs1 by apply lookup_insert_eq.
  unfold bind at 1. unfold bind at 1. unfold get at 1.
  change (currentUtterance c1) with (currentUtterance c).
  change (currentSessionId c1) with (currentSessionId c).
  destruct (currentUtterance c) as [u0|] eqn:Hu.
  - destruct (idEq (currentSessionId c) id) eqn:Hcur; unfold when.
    + unfold bind at 1. unfold load at 1. rewrite Hs1.
      unfold modify at 1. cbn [fst snd app].
      rewrite (broadcast_run _ r s'); [|by apply lookup_insert_eq].
      reflexivity.
    + unfold ret at 1. cbn [fst snd app].
      rewrite (broadcast_run c1 r s' Hs1).
      unfold set_current, c1, set_store. simpl. by rewrite Hu.
  - unfold ret at 1. cbn [fst snd app].
    rewrite (broadcast_run c1 r s' Hs1).
    unfold set_current, c1, set_store. simpl. rewrite Hu.
    by destruct (idEq (currentSessionId c) id).
Qed.

Lemma setVolume_applies_witness :
  exists c' s',
    setVolume (sampleEnv 3 "x") "session_a" (Num 0) (started "hello world")
    = (Ok tt, c', [SessionUpdated 1 s'])
    /\ AudioSession.volume s' = 0%Q.
Proof.
  assert (exists s, registered (started "hello world") "session_a" 0 s
                    /\ AudioSession.tabId s = 1%Z) as (s & Hreg & Htab).
  { eexists. split; [split; vm_compute; reflexivity|reflexivity]. }
  pose proof (setVolume_applies (sampleEnv 3 "x") (started "hello world")
                "session_a" 0 s 0%Q Hreg ltac:(done) ltac:(done)) as H.
  cbv zeta in H. rewrite Htab in H.
  do 2 eexists. split; [exact H|reflexivity].
Defined.

(** X13.  [setSpeed] with a value in [0.5, 2.0] on a registered session
    succeeds and stores the speed in the session.  When the session is not
    the current one, only the session changes.  When it is the current one
    and the engine is not speaking (or is paused), the live utterance gets
    the rate and nothing is restarted.  When it is the current one, the
    engine is speaking and the session is playing, the engine is cancelled
    and a new utterance for the text that remains from the session's
    current position is submitted with the new rate. *)
Theorem setSpeed_applies env c id r s (q : Q) :
  registered c id r s ->
  (1#2 <= q)%Q -> (q <= 2#1)%Q ->
  let s' := AudioSession.set_lastActiveAt (now env)
              (AudioSession.set_speed q s) in
  let c1 := set_store (<[r := s']> (store c)) c in
  (idEq (currentSessionId c) id = false \/ currentUtterance c = None ->
     setSpeed env id (Num q) c
     = (Ok tt, c1, [SessionUpdated (AudioSession.tabId s) s']))
  /\ (forall u0,
        idEq (currentSessionId c) id = true ->
        currentUtterance c = Some u0 ->
        speaking env && negb (paused env) = false ->
        setSpeed env id (Num q) c
        = (Ok tt, set_current (Some (set_rate q u0)) (currentSessionId c) c1,
           [SessionUpdated (AudioSession.tabId s) s']))
  /\ (forall u0,
        idEq (currentSessionId c) id = true ->
        currentUtterance c = Some u0 ->
        speaking env && negb (paused env) = true ->
        AudioSession.isPlaying s = true ->
        synth env = true ->
        AudioSession.reachable s ->
        (1 <= AudioSession.totalWords s)%Z ->
        exists voice,
          setSpeed env id (Num q) c
          = (Ok tt,
             set_current (Some (utteranceFor r voice s'))
               (Some (AudioSession.sessionId s)) c1,
             [Cancel; Speak (utteranceFor r voice s');
              SessionUpdated (AudioSession.tabId s) s'])
          /\ rate (utteranceFor r voice s') = q
          /\ u_text (utteranceFor r voice s')
             = AudioSession.getRemainingText s).
Proof.
  intros [Hid Hs] H0 H1 s' c1.
  assert (store c1 !! r = Some s') as Hs1 by apply lookup_insert_eq.
  assert (setSpeed env id (Num q) c
          = (do c2 <- get ;;;
             match currentUtterance c2 with
             | Some u =>
                 when (idEq (currentSessionId c2) id)
                   (do s2 <- load r ;;;
                    modify (set_current
                              (Some (set_rate (AudioSession.speed s2) u))
                              (currentSessionId c2)) ;;;
                    when (speaking env && negb (paused env))
                      (let wasPlaying := AudioSession.isPlaying s2 in
                       emit Cancel ;;;
                       when wasPlaying
                         (do voice <- _getBestVoice env ;;;
                          _startSpeechSynthesis r voice)))
             | None => ret tt
             end ;;;
             _broadcastSessionUpdate r) c1) as Hrun.
  { unfold setSpeed.
    rewrite (bind_ok _ _ c r c (getSession_run c id r Hid)).
    assert (num_lt (Num q) (1#2) || num_gt (Num q) (2#1) = false) as ->.
    { unfold num_lt, num_gt.
      by rewrite (Qltb_le_false q (1#2) H0), (Qltb_le_false (2#1) q H1). }
    rewrite (bind_ok _ _ c tt c1
               (updateState_ok env r _ c s s' Hs (speed_update _ q s H0 H1))).
    reflexivity. }
  rewrite Hrun. clear Hrun.
  rewrite (bind_ok _ _ c1 c1 c1 eq_refl).
  change (currentUtterance c1) with (currentUtterance c).
  change (currentSessionId c1) with (currentSessionId c).
  split; [|split].
  - intros Hidle.
    assert (match currentUtterance c with
            | Some u =>
                when (idEq (currentSessionId c) id)
                  (do s2 <- load r ;;;
                   modify (set_current
                             (Some (set_rate (AudioSession.speed s2) u))
                             (currentSessionId c)) ;;;
                   when (speaking env && negb (paused env))
                     (let wasPlaying := AudioSession.isPlaying s2 in
                      emit Cancel ;;;
                      when wasPlaying
                        (do voice <- _getBestVoice env ;;;
                         _startSpeechSynthesis r voice)))
            | None => ret tt
            end c1 = (Ok tt, c1, [])) as Hinner.
    { destruct (currentUtterance c) as [u0|]; [|done].
      destruct Hidle as [Hcur|]; [|done]. by rewrite Hcur. }
    rewrite (bind_ok _ _ c1 tt c1 Hinner).
    by rewrite (broadcast_run c1 r s' Hs1).
  - intros u0 Hcur Hu Hlive. rewrite Hu, Hcur, Hlive.
    set (c2 := set_current (Some (set_rate q u0)) (currentSessionId c) c1).
    assert (when true
              (do s2 <- load r ;;;
               modify (set_current
                         (Some (set_rate (AudioSession.speed s2) u0))
                         (currentSessionId c)) ;;;
               when false
                 (let wasPlaying := AudioSession.isPlaying s2 in
                  emit Cancel ;;;
                  when wasPlaying
                    (do voice <- _getBestVoice env ;;;
                     _startSpeechSynthesis r voice))) c1
            = (Ok tt, c2, [])) as Hinner.
    { unfold when at 1.
      rewrite (bind_ok _ _ c1 s' c1 (load_run c1 r s' Hs1)).
      by rewrite (bind_ok _ _ c1 tt c2 eq_refl). }
    rewrite (bind_ok _ _ c1 tt c2 Hinner).
    rewrite (broadcast_run c2 r s'); [done|by apply lookup_insert_eq].
  - intros u0 Hcur Hu Hlive Hplay Hsynth Hreach Hwords.
    destruct (getBestVoice_pure env Hsynth) as [voice Hvoice].
    exists voice.
    assert (AudioSession.reachable s') as Hreach'.
    { pose proof (AudioSession.reach_update (now env)
                    (AudioSession.mkUpdate None None None (Some (Num q)) None)
                    s Hreach) as H.
      by rewrite speed_update in H. }
    assert (AudioSession.getRemainingText s' <> []) as Hrem.
    { by apply SessionState.remaining_text_nonempty. }
    split; [|by split].
    rewrite Hu, Hcur, Hlive.
    set (c2 := set_current (Some (set_rate q u0)) (currentSessionId c) c1).
    set (c3 := set_current (Some (utteranceFor r voice s'))
                 (Some (AudioSession.sessionId s')) c2).
    assert (store c2 !! r = Some s') as Hs2 by apply lookup_insert_eq.
    assert (when true
              (do s2 <- load r ;;;
               modify (set_current
                         (Some (set_rate (AudioSession.speed s2) u0))
                         (currentSessionId c)) ;;;
               when true
                 (let wasPlaying := AudioSession.isPlaying s2 in
                  emit Cancel ;;;
                  when wasPlaying
                    (do voice <- _getBestVoice env ;;;
                     _startSpeechSynthesis r voice))) c1
            = (Ok tt, c3, [Cancel; Speak (utteranceFor r voice s')]))
      as Hinner.
    { unfold when at 1.
      rewrite (bind_ok _ _ c1 s' c1 (load_run c1 r s' Hs1)).
      rewrite (bind_ok _ _ c1 tt c2 eq_refl).
      unfold when at 1. cbv zeta.
      change (AudioSession.isPlaying s') with (AudioSession.isPlaying s).
      rewrite Hplay. unfold when.
      rewrite (bind_ok_trace _ _ c2 tt c2 [Cancel] eq_refl).
      rewrite (bind_ok _ _ c2 voice c2 (Hvoice c2)).
      by rewrite (startSynthesis_run r voice c2 s' Hs2 Hrem). }
    rewrite (bind_ok_trace _ _ c1 tt c3 _ Hinner).
    rewrite (broadcast_run c3 r s'); [done|by apply lookup_insert_eq].
Qed.

Lemma setSpeed_applies_witness :
  exists c' u s',
    setSpeed (mkEnv true true [mkVoice "Test Voice" (lit "en-US") true] []
                true false 3 "x")
      "session_a" (Num (3#2)) (started "one two three")
    = (Ok tt, c', [Cancel; Speak u; SessionUpdated 1 s'])
    /\ rate u = 3#2
    /\ u_text u = lit "one two three".
Proof.
  assert (exists s u0,
            registered (started "one two three") "session_a" 0 s
            /\ currentUtterance (started "one two three") = Some u0
            /\ AudioSession.reachable s
            /\ AudioSession.tabId s = 1%Z
            /\ AudioSession.getRemainingText s = lit "one two three")
    as (s & u0 & Hreg & Hu & Hr & Htab & Hrem).
  { eexists (snd (AudioSession.updateState 0
                (AudioSession.mkUpdate (Some true) (Some false) None None None)
                _)), _.
    split; [|split; [|split]]; cycle 2.
    - eapply AudioSession.reach_update.
      eapply (AudioSession.reach_new "session_a" 0
                (sessionArgs (sampleRequest "one two three"))).
      vm_compute. reflexivity.
    - split; vm_compute; reflexivity.
    - split; vm_compute; reflexivity.
    - vm_compute. reflexivity. }
  destruct (setSpeed_applies
              (mkEnv true true [mkVoice "Test Voice" (lit "en-US") true] []
                 true false 3 "x")
              (started "one two three") "session_a" 0 s (3#2) Hreg
              ltac:(done) ltac:(done)) as (_ & _ & H).
  destruct (H u0 ltac:(vm_compute; reflexivity) Hu eq_refl
              ltac:(destruct Hreg as [_ Hs]; vm_compute in Hs;
                    injection Hs as <-; reflexivity)
              eq_refl Hr
              ltac:(destruct Hreg as [_ Hs]; vm_compute in Hs;
                    injection Hs as <-; vm_compute; discriminate))
    as (voice & Hrun & Hrate & Htext).
  rewrite Htab in Hrun.
  do 3 eexists. split; [exact Hrun|]. split; [exact Hrate|].
  by rewrite Htext.
Defined.

(** *** Resuming *)

(** X14.  [resumeSpeech] on a registered, paused session succeeds and
    marks the session playing.  When the session is the current one and
    the engine is paused, the engine is resumed and nothing else happens.
    Otherwise a new utterance for the text that remains from the session's
    current position is submitted and the session becomes the current one.
    A [pauseSpeech] followed by such a [resumeSpeech] leaves every field of
    the session as it was, except the flags ([isPlaying = true],
    [isPaused = false]) and [lastActiveAt]. *)
Theorem resume_continues env c id r s :
  registered c id r s ->
  AudioSession.isPaused s = true ->
  let c1 := set_store (<[r := playingAt (now env) s]> (store c)) c in
  (idEq (currentSessionId c) id && paused env = true ->
     resumeSpeech env id c = (Ok tt, c1, [Resume]))
  /\ (idEq (currentSessionId c) id && paused env = false ->
      synth env = true ->
      AudioSession.reachable s ->
      (1 <= AudioSession.totalWords s)%Z ->
      exists voice,
        resumeSpeech env id c
        = (Ok tt,
           set_store (<[r := playingAt (now env) s]> (store c))
             (set_current (Some (utteranceFor r voice s))
                (Some (AudioSession.sessionId s)) c),
           [Speak (utteranceFor r voice s)]))
  /\ (forall env0 s0,
        s = pausedAt (now env0) s0 ->
        playingAt (now env) s
        = AudioSession.set_lastActiveAt (now env)
            (AudioSession.set_isPaused false
               (AudioSession.set_isPlaying true s0))).
Proof.
  intros [Hid Hs] Hp c1.
  assert (forall k : M unit,
            resumeSpeech env id c
            = ((if idEq (currentSessionId c) id && paused env
                then emit Resume
                else do voice <- _getBestVoice env ;;;
                     _startSpeechSynthesis r voice) ;;;
               updateState env r
                 (AudioSession.mkUpdate (Some true) (Some false) None None
                    None)) c) as Hrun.
  { intros _. unfold resumeSpeech.
    rewrite (bind_ok _ _ c r c (getSession_run c id r Hid)).
    rewrite (bind_ok _ _ c s c (load_run c r s Hs)).
    rewrite Hp. cbn [negb].
    by rewrite (bind_ok _ _ c c c eq_refl). }
  specialize (Hrun (ret tt)).
  split; [|split].
  - intros Hcur. rewrite Hrun, Hcur.
    rewrite (bind_ok_trace _ _ c tt c [Resume] eq_refl).
    by rewrite (updateState_ok env r _ c s _ Hs (flags_update _ true false s)).
  - intros Hcur Hsynth Hreach Hwords.
    destruct (getBestVoice_pure env Hsynth) as [voice Hvoice].
    exists voice. rewrite Hrun, Hcur.
    pose proof (SessionState.remaining_text_nonempty s Hreach Hwords) as Hrem.
    set (c2 := set_current (Some (utteranceFor r voice s))
                 (Some (AudioSession.sessionId s)) c).
    assert ((do voice <- _getBestVoice env ;;;
             _startSpeechSynthesis r voice) c
            = (Ok tt, c2, [Speak (utteranceFor r voice s)])) as Hinner.
    { rewrite (bind_ok _ _ c voice c (Hvoice c)).
      by rewrite (startSynthesis_run r voice c s Hs Hrem). }
    rewrite (bind_ok_trace _ _ c tt c2 _ Hinner).
    by rewrite (updateState_ok env r _ c2 s _ Hs (flags_update _ true false s)).
  - intros env0 s0 ->. by destruct s0.
Qed.

Lemma resume_continues_witness :
  exists c1 c2,
    pauseSpeech (sampleEnv 1 "x") "session_a" (started "hello world")
    = (Ok tt, c1, [])
    /\ resumeSpeech
         (mkEnv true true [mkVoice "Test Voice" (lit "en-US") true] []
            true true 2 "x") "session_a" c1
       = (Ok tt, c2, [Resume])
    /\ (AudioSession.isPlaying <$> store c2 !! 0) = Some true.
Proof.
  assert (exists s, registered (started "hello world") "session_a" 0 s)
    as [s Hreg].
  { eexists. split; vm_compute; reflexivity. }
  pose proof (pauseSpeech_run (sampleEnv 1 "x") (started "hello world")
                "session_a" 0 s Hreg) as Hpause.
  change (idEq (currentSessionId (started "hello world")) "session_a"
          && speaking (sampleEnv 1 "x")) with false in Hpause.
  eexists _, _. split; [exact Hpause|].
  match type of Hpause with _ = (_, ?c1, _) =>
    destruct (resume_continues
                (mkEnv true true [mkVoice "Test Voice" (lit "en-US") true] []
                   true true 2 "x") c1 "session_a" 0 (pausedAt 1 s))
      as (H & _)
  end.
  - split; [by destruct Hreg|]. apply lookup_insert_eq.
  - reflexivity.
  - split; [apply H; by destruct Hreg as [_ ?]|].
    simpl. rewrite lookup_insert_eq. reflexivity.
Defined.

(** *** Starting *)

Lemma validate_request_ok req tab c :
  AudioSession.missing (r_contentId req) = false ->
  noText (r_text req) = false ->
  r_tabId req = Some tab ->
  _validateStartRequest (Some req) c = (Ok req, c, []).
Proof.
  intros Hc Ht Htab. unfold _validateStartRequest. by rewrite Hc, Ht, Htab.
Qed.

Lemma construct_accepts newId now a s :
  AudioSession.construct newId now a = Ok s ->
  AudioSession.missing (AudioSession.a_contentId a) = false
  /\ truthy (default [] (AudioSession.a_text a)) = true
  /\ (exists tab, AudioSession.a_tabId a = Some tab)
  /\ AudioSession.sessionId s = newId
  /\ AudioSession.text s = default [] (AudioSession.a_text a)
  /\ AudioSession.isPlaying s = false /\ AudioSession.isPaused s = false.
Proof.
  unfold AudioSession.construct. intros H.
  destruct (AudioSession.missing (AudioSession.a_contentId a)); [done|].
  destruct (AudioSession.missing (AudioSession.a_pageUrl a)); [done|].
  destruct (truthy (default [] (AudioSession.a_text a))); [|done].
  simpl in H.
  destruct (AudioSession.a_tabId a) as [tab|]; [|done].
  destruct (AudioSession._validateSpeed _); [|done].
  destruct (AudioSession._validateVolume _); [|done].
  injection H as <-. repeat split; try done. by exists tab.
Qed.

Lemma alloc_run env args c s :
  AudioSession.construct (newId env) (now env) args = Ok s ->
  alloc env args c
  = (Ok (fresh (dom (store c))),
     set_store (<[fresh (dom (store c)) := s]> (store c)) c, []).
Proof. intros H. unfold alloc. by rewrite H. Qed.

Lemma startSpeech_enter env req c s0 voice :
  AudioSession.construct (newId env) (now env) (sessionArgs req) = Ok s0 ->
  trim (default [] (r_text req)) <> [] ->
  supported env = true ->
  (size (activeSessions c) < maxConcurrentSessions c)%nat ->
  _getBestVoice env c = (Ok (Some voice), c, []) ->
  let r := fresh (dom (store c)) in
  let c1 := set_activeSessions (<[newId env := r]> (activeSessions c))
              (set_store (<[r := s0]> (store c)) c) in
  startSpeech env (Some req) c
  = tryCatch
      (_startSpeechSynthesis r (Some voice) ;;;
       updateState env r
         (AudioSession.mkUpdate (Some true) (Some false) None None None) ;;;
       ret r)
      (fun error =>
         throw (TextProcessingError "Failed to start speech synthesis"
                  (Some error))) c1
    /\ store c1 !! r = Some s0.
Proof.
  intros Hs0 Htrim Hsup Hsize Hvoice r c1.
  destruct (construct_accepts _ _ _ _ Hs0) as (Hc & Ht & [tab Htab] & Hid & _).
  split; [|apply lookup_insert_eq].
  unfold startSpeech.
  rewrite (bind_ok _ _ c req c (validate_request_ok req tab c Hc
             ltac:(unfold noText; simpl in Ht; by rewrite Ht) Htab)).
  rewrite (bind_ok _ _ c c c eq_refl).
  rewrite Hsup. cbn [negb].
  replace (maxConcurrentSessions c <=? size (activeSessions c))%nat
    with false by (symmetry; apply Nat.leb_gt; lia).
  rewrite (bind_ok _ _ c (Some voice) c Hvoice).
  assert (noText (r_text req)
          || (length (trim (default [] (r_text req))) =? 0)%nat = false) as ->.
  { unfold noText. simpl in Ht. rewrite Ht. simpl.
    destruct (trim (default [] (r_text req))); done. }
  unfold tryCatch.
  rewrite (bind_ok _ _ c r _ (alloc_run env _ c s0 Hs0)).
  rewrite (bind_ok _ _ _ s0 _ (load_run _ r s0 (lookup_insert_eq _ _ _))).
  rewrite (bind_ok _ _ _ tt c1);
    [reflexivity | unfold modify; by rewrite Hid].
Qed.

(** X15.  A [startSpeech] that succeeds.  When the constructor accepts the
    request, the platform supports speech, fewer sessions than the limit
    are registered, a voice is available and the text has at least one
    word, the call returns a new session object that is registered under
    its id, is playing and not paused, and is the current session; the
    engine receives exactly one call, [speak], with an utterance for the
    text that remains from the start position at the session's speed and
    volume, and nothing is cancelled.  The sessions already stored are not
    touched. *)
Theorem startSpeech_creates_session env req c s0 voice :
  AudioSession.construct (newId env) (now env) (sessionArgs req) = Ok s0 ->
  (1 <= AudioSession.totalWords s0)%Z ->
  supported env = true ->
  (size (activeSessions c) < maxConcurrentSessions c)%nat ->
  _getBestVoice env c = (Ok (Some voice), c, []) ->
  let r := fresh (dom (store c)) in
  let u := utteranceFor r (Some voice) s0 in
  startSpeech env (Some req) c
  = (Ok r,
     mkController (<[r := playingAt (now env) s0]> (store c))
       (<[newId env := r]> (activeSessions c)) (maxConcurrentSessions c)
       (Some u) (Some (newId env)),
     [Speak u])
  /\ store c !! r = None
  /\ u_text u <> []
  /\ AudioSession.isPlaying (playingAt (now env) s0) = true
  /\ AudioSession.isPaused (playingAt (now env) s0) = false
  /\ AudioSession.currentPosition (playingAt (now env) s0)
     = AudioSession.clampPosition (default 0%Z (r_startWordIndex req))
         (AudioSession.totalWords s0).
Proof.
  intros Hs0 Hwords Hsup Hsize Hvoice r u.
  pose proof (AudioSession.reach_new _ _ _ _ Hs0) as Hreach.
  pose proof (SessionState.remaining_text_nonempty s0 Hreach Hwords) as Hrem.
  destruct (construct_accepts _ _ _ _ Hs0) as (_ & _ & _ & Hid & Htext & _).
  assert (trim (default [] (r_text req)) <> []) as Htrim.
  { intros E. apply SessionState.blank_text_has_no_words in E.
    pose proof (SessionState.reachable_consistent s0 Hreach) as (Hw & Htw & _).
    rewrite Htext in Hw. simpl in Hw. rewrite E in Hw. rewrite Hw in Htw.
    simpl in Htw. lia. }
  destruct (startSpeech_enter env req c s0 voice Hs0 Htrim Hsup Hsize Hvoice)
    as [Hrun Hs1].
  fold r in Hrun, Hs1.
  set (c1 := set_activeSessions (<[newId env := r]> (activeSessions c))
               (set_store (<[r := s0]> (store c)) c)) in *.
  split; [|split; [|split; [|split; [|split]]]].
  - rewrite Hrun. unfold tryCatch.
    set (c2 := set_current (Some u) (Some (AudioSession.sessionId s0)) c1).
    rewrite (bind_ok_trace _ _ c1 tt c2 [Speak u]
               (startSynthesis_run r (Some voice) c1 s0 Hs1 Hrem)).
    rewrite (bind_ok _ _ c2 tt _
               (updateState_ok env r _ c2 s0 _ Hs1
                  (flags_update _ true false s0))).
    unfold ret. cbn [fst snd app].
    unfold set_store, c2, set_current, c1, set_activeSessions, set_store.
    cbn [store activeSessions maxConcurrentSessions currentUtterance
         currentSessionId].
    by rewrite Hid, insert_insert_eq.
  - apply not_elem_of_dom. apply is_fresh.
  - done.
  - by destruct s0.
  - by destruct s0.
  - unfold AudioSession.construct in Hs0.
    destruct (AudioSession.missing _); [done|].
    destruct (AudioSession.missing _); [done|].
    destruct (negb _); [done|].
    destruct (AudioSession.a_tabId _); [|done].
    destruct (AudioSession._validateSpeed _); [|done].
    destruct (AudioSession._validateVolume _); [|done].
    by injection Hs0 as <-.
Qed.

Lemma startSpeech_creates_session_witness :
  exists r c' u,
    startSpeech (sampleEnv 5 "session_b") (Some (sampleRequest "two words"))
      (started "hello world") = (Ok r, c', [Speak u])
    /\ getActiveSessionCount c' = 2
    /\ currentSessionId c' = Some "session_b"%string.
Proof.
  destruct (AudioSession.construct "session_b" 5
              (sessionArgs (sampleRequest "two words"))) as [s0|] eqn:Hs0;
    [|vm_compute in Hs0; discriminate].
  destruct (startSpeech_creates_session (sampleEnv 5 "session_b")
              (sampleRequest "two words") (started "hello world") s0
              (mkVoice "Test Voice" (lit "en-US") true) Hs0)
    as (Hrun & _).
  - vm_compute in Hs0. injection Hs0 as <-. vm_compute. discriminate.
  - reflexivity.
  - vm_compute. lia.
  - vm_compute. reflexivity.
  - eexists _, _, _. split; [exact Hrun|]. split; [|reflexivity].
    vm_compute. reflexivity.
Defined.

(** X16.  A [startSpeech] that fails late.  When the text of the request is
    not blank but contains no word (only punctuation, for example), the
    constructor accepts it and the session is registered before
    [_startSpeechSynthesis] finds no text to speak: the call throws
    [TextProcessingError('Failed to start speech synthesis')], calls
    nothing, and the session stays in the registry, so the count has gone
    up by one for an id that was free. *)
Theorem startSpeech_without_words_leaves_session env req c s0 voice :
  AudioSession.construct (newId env) (now env) (sessionArgs req) = Ok s0 ->
  AudioSession.totalWords s0 = 0%Z ->
  trim (default [] (r_text req)) <> [] ->
  supported env = true ->
  (size (activeSessions c) < maxConcurrentSessions c)%nat ->
  _getBestVoice env c = (Ok (Some voice), c, []) ->
  activeSessions c !! newId env = None ->
  let r := fresh (dom (store c)) in
  exists c',
    startSpeech env (Some req) c
    = (Throw (TextProcessingError "Failed to start speech synthesis"
                (Some (TextProcessingError "No text to speak" None))),
       c', [])
    /\ registered c' (newId env) r s0
    /\ getActiveSessionCount c' = S (getActiveSessionCount c)
    /\ currentUtterance c' = currentUtterance c
    /\ currentSessionId c' = currentSessionId c.
Proof.
  intros Hs0 Hwords Htrim Hsup Hsize Hvoice Hfree r.
  destruct (startSpeech_enter env req c s0 voice Hs0 Htrim Hsup Hsize Hvoice)
    as [Hrun Hs1].
  fold r in Hrun, Hs1.
  set (c1 := set_activeSessions (<[newId env := r]> (activeSessions c))
               (set_store (<[r := s0]> (store c)) c)) in *.
  exists c1.
  pose proof (AudioSession.reach_new _ _ _ _ Hs0) as Hreach.
  pose proof (SessionState.reachable_consistent s0 Hreach) as (_ & Htw & _).
  pose proof (SessionState.reachable_inRange s0 Hreach) as [_ Hpos].
  assert (AudioSession.getRemainingText s0 = []) as Hrem.
  { unfold AudioSession.getRemainingText.
    by replace (Z.of_nat (length (AudioSession.words s0))
                <=? AudioSession.currentPosition s0)%Z
      with true by (symmetry; lia). }
  split; [|split; [|split]].
  - rewrite Hrun. unfold tryCatch.
    assert (_startSpeechSynthesis r (Some voice) c1
            = (Throw (TextProcessingError "No text to speak" None), c1, []))
      as Hsyn.
    { unfold _startSpeechSynthesis.
      rewrite (bind_ok _ _ c1 s0 c1 (load_run c1 r s0 Hs1)).
      by rewrite Hrem. }
    by rewrite (bind_throw _ _ c1 _ c1 [] Hsyn).
  - split; [apply lookup_insert_eq|done].
  - unfold getActiveSessionCount, c1. simpl.
    by apply map_size_insert_None.
  - done.
Qed.

Lemma startSpeech_without_words_leaves_session_witness :
  exists c',
    startSpeech (sampleEnv 5 "session_b") (Some (sampleRequest "?!"))
      (started "hello world")
    = (Throw (TextProcessingError "Failed to start speech synthesis"
                (Some (TextProcessingError "No text to speak" None))),
       c', [])
    /\ getActiveSessionCount c' = 2.
Proof.
  destruct (AudioSession.construct "session_b" 5
              (sessionArgs (sampleRequest "?!"))) as [s0|] eqn:Hs0;
    [|vm_compute in Hs0; discriminate].
  destruct (startSpeech_without_words_leaves_session (sampleEnv 5 "session_b")
              (sampleRequest "?!") (started "hello world") s0
              (mkVoice "Test Voice" (lit "en-US") true) Hs0)
    as (c' & Hrun & _ & Hn & _).
  - vm_compute in Hs0. by injection Hs0 as <-.
  - vm_compute. discriminate.
  - reflexivity.
  - vm_compute. lia.
  - vm_compute. reflexivity.
  - vm_compute. reflexivity.
  - exists c'. split; [exact Hrun|]. rewrite Hn. vm_compute. reflexivity.
Defined.

(** *** Sweeping inactive sessions *)

Lemma cleanupLoop_run now entries : forall c n,
  (forall id r, (id, r) ∈ entries -> is_Some (store c !! r)) ->
  cleanupLoop now entries n c
  = (Ok (n + length (List.filter (fun e => staleAt now c (snd e)) entries)),
     set_activeSessions
       (foldl (fun m e => if staleAt now c (snd e) then delete (fst e) m else m)
          (activeSessions c) entries) c,
     []).
Proof.
  induction entries as [|[id r] entries IH]; intros c n Hstore.
  - simpl. unfold ret. rewrite Nat.add_0_r. by destruct c.
  - destruct (Hstore id r ltac:(by left)) as [s Hs].
    cbn [cleanupLoop].
    rewrite (bind_ok _ _ c s c (load_run c r s Hs)).
    cbn [List.filter foldl fst snd].
    assert (staleAt now c r
            = (maxInactiveTime <? now - AudioSession.lastActiveAt s)%Z) as Hst
      by (unfold staleAt; by rewrite Hs).
    rewrite <- Hst.
    destruct (staleAt now c r).
    + rewrite (bind_ok _ _ c tt _ eq_refl).
      rewrite IH; [|intros id' r' Hin; apply (Hstore id' r'); by right].
      cbn [length]. rewrite Nat.add_succ_r. reflexivity.
    + rewrite IH; [|intros id' r' Hin; apply (Hstore id' r'); by right].
      reflexivity.
Qed.

Lemma sweep_spec (P : ref -> bool) (entries : list (string * ref)) :
  forall m : gmap string ref,
    NoDup (entries.*1) ->
    (forall id r, (id, r) ∈ entries -> m !! id = Some r) ->
    let m' := foldl (fun m e => if P (snd e) then delete (fst e) m else m)
                m entries in
    (forall id r, m' !! id = Some r <->
       m !! id = Some r /\ ((id, r) ∈ entries -> P r = false))
    /\ length (List.filter (fun e => P (snd e)) entries) + size m' = size m.
Proof.
  induction entries as [|[id0 r0] entries IH]; intros m Hnd Hin.
  - simpl. split; [|done]. intros id r. split; [|by intros [? _]].
    intros H. split; [done|]. by intros ?%elem_of_nil.
  - apply NoDup_cons in Hnd as [Hfresh Hnd]. simpl in Hfresh.
    pose proof (Hin id0 r0 ltac:(by left)) as H0.
    cbn [foldl fst snd List.filter].
    set (m1 := if P r0 then delete id0 m else m).
    assert (forall id r, (id, r) ∈ entries -> id <> id0) as Hne.
    { intros id r Hm ->. apply Hfresh.
      apply list_elem_of_fmap. by exists (id0, r). }
    assert (forall id r, (id, r) ∈ entries -> m1 !! id = Some r) as Hin1.
    { intros id r Hm. unfold m1. destruct (P r0).
      - rewrite lookup_delete_ne by (intros ->; by eapply Hne).
        apply Hin. by right.
      - apply Hin. by right. }
    destruct (IH m1 Hnd Hin1) as [Hlook Hsize]. split.
    + intros id r. rewrite Hlook. unfold m1.
      destruct (decide (id = id0)) as [->|Hid].
      * destruct (P r0) eqn:HP.
        -- rewrite lookup_delete_eq. split; [by intros [? _]|].
           intros [Hm Hp]. rewrite H0 in Hm. injection Hm as <-.
           specialize (Hp ltac:(by left)). congruence.
        -- split.
           ++ intros [Hm Hp]. split; [done|]. intros _.
              rewrite H0 in Hm. by injection Hm as <-.
           ++ intros [Hm Hp]. split; [done|]. intros Hmem. apply Hp. by right.
      * assert ((if P r0 then delete id0 m else m) !! id = m !! id) as ->.
        { destruct (P r0); [by rewrite lookup_delete_ne|done]. }
        split; intros [Hm Hp]; (split; [done|]).
        -- intros Hmem. apply elem_of_cons in Hmem as [[= -> ->]|Hmem]; [done|].
           by apply Hp.
        -- intros Hmem. apply Hp. by right.
    + subst m1. destruct (P r0) eqn:HP.
      * rewrite map_size_delete, H0 in Hsize. simpl in *.
        assert (size m <> 0).
        { intros E. apply map_size_empty_iff in E. by rewrite E in H0. }
        lia.
      * done.
Qed.

(** X17.  [cleanupInactiveSessions] removes from the registry exactly the
    sessions whose last activity is more than 24 hours before the time of
    the call, returns how many it removed, and keeps every other
    registration: an id resolves afterwards if and only if it resolved
    before to a session that is not stale.  The engine is not called and
    the current utterance and session id are left as they are, also when
    the current session is the one removed. *)
Theorem cleanup_removes_stale env c :
  (forall id r, activeSessions c !! id = Some r -> is_Some (store c !! r)) ->
  exists n c',
    cleanupInactiveSessions env c = (Ok n, c', [])
    /\ (forall id r,
          activeSessions c' !! id = Some r <->
          activeSessions c !! id = Some r /\ staleAt (now env) c r = false)
    /\ n + getActiveSessionCount c' = getActiveSessionCount c
    /\ store c' = store c
    /\ currentUtterance c' = currentUtterance c
    /\ currentSessionId c' = currentSessionId c.
Proof.
  intros Hwf.
  set (entries := map_to_list (activeSessions c)).
  assert (forall id r, (id, r) ∈ entries <-> activeSessions c !! id = Some r)
    as Hentries by (intros; apply elem_of_map_to_list).
  destruct (sweep_spec (staleAt (now env) c) entries (activeSessions c)
              (NoDup_fst_map_to_list _)
              (fun id r H => proj1 (Hentries id r) H)) as [Hlook Hsize].
  eexists _, _. split.
  - unfold cleanupInactiveSessions.
    rewrite (bind_ok _ _ c c c eq_refl). fold entries.
    apply cleanupLoop_run.
    intros id r Hin. apply (Hwf id r). by apply Hentries.
  - split; [|split; [|done]].
    + intros id r. cbn [activeSessions set_activeSessions]. rewrite Hlook.
      split; intros [Hm Hp]; (split; [done|]); [|done].
      apply Hp. by apply Hentries.
    + unfold getActiveSessionCount. cbn [activeSessions set_activeSessions].
      simpl. exact Hsize.
Qed.

Lemma cleanup_removes_stale_witness :
  exists c',
    cleanupInactiveSessions (sampleEnv 86400001 "x") (started "hello world")
    = (Ok 1, c', [])
    /\ getActiveSessionCount c' = 0
    /\ currentSessionId c' = Some "session_a"%string.
Proof.
  destruct (cleanup_removes_stale (sampleEnv 86400001 "x")
              (started "hello world"))
    as (n & c' & Hrun & _ & Hn & _ & _ & Hcur).
  - intros id r Hreg.
    destruct (decide (id = "session_a"%string)) as [->|Hne].
    + vm_compute in Hreg. injection Hreg as <-. by eexists.
    + exfalso. revert Hreg. change (activeSessions (started "hello world"))
        with (<["session_a"%string := 0]> (∅ : gmap string ref)).
      by rewrite lookup_insert_ne, lookup_empty.
  - exists c'.
    assert (n = 1 /\ getActiveSessionCount c' = 0) as [-> H0].
    { pose proof Hrun as Hrun'. vm_compute in Hrun'.
      injection Hrun' as Hn' Hc'. subst n. simpl in Hn.
      change (getActiveSessionCount (started "hello world")) with 1 in Hn.
      lia. }
    split; [exact Hrun|]. split; [exact H0|]. rewrite Hcur. reflexivity.
Defined.

(** *** The bound of the registry *)



















End Controller.

(** ** The content score *)

Module ContentScore.
Import TextExtractor.
Local Open Scope Q_scope.












(** *** The main content, the fallback element and the title *)









Lemma fallbackLoop_spec found : forall best n,
  (forall b, best = Some b -> textLength b = n /\ (0 < n)%nat) ->
  (best = None -> n = 0%nat) ->
  let result := fallbackLoop found best n in
  (forall e, result = Some e ->
     (0 < textLength e)%nat /\ (n <= textLength e)%nat
     /\ (best = Some e \/ In (Some e) found)
     /\ forall x, In (Some x) found -> (textLength x <= textLength e)%nat)
  /\ (result = None ->
      best = None /\ forall x, In (Some x) found -> textLength x = 0%nat).
Proof.
  induction found as [|[x|] found IH]; intros best n Hbest Hnone; simpl.
  - split.
    + intros e ->. destruct (Hbest e eq_refl) as [<- ?].
      split_and!; [done|lia|by left|by intros x []].
    + intros ->. split; [done|]. by intros x [].
  - destruct (n <? textLength x)%nat eqn:E.
    + apply Nat.ltb_lt in E.
      destruct (IH (Some x) (textLength x)) as [H1 H2].
      { intros b [= <-]. split; [done|lia]. }
      { done. }
      split.
      * intros e He. destruct (H1 e He) as (Hp & Hge & Hin & Hmax).
        split_and!; [done|lia| |].
        -- right. destruct Hin as [[= ->]|Hin]; [by left|by right].
        -- intros y [[= ->]|Hy]; [lia|by apply Hmax].
      * intros Hr. by destruct (H2 Hr).
    + apply Nat.ltb_ge in E.
      destruct (IH best n Hbest Hnone) as [H1 H2]. split.
      * intros e He. destruct (H1 e He) as (Hp & Hge & Hin & Hmax).
        split_and!; [done|done| |].
        -- destruct Hin as [Hin|Hin]; [by left|right; by right].
        -- intros y [[= ->]|Hy]; [lia|by apply Hmax].
      * intros Hr. destruct (H2 Hr) as [Hb Hz]. split; [done|].
        intros y [[= ->]|Hy]; [|by apply Hz].
        specialize (Hnone Hb). lia.
  - destruct (IH best n Hbest Hnone) as [H1 H2]. split.
    + intros e He. destruct (H1 e He) as (Hp & Hge & Hin & Hmax).
      split_and!; [done|done| |].
      * destruct Hin as [Hin|Hin]; [by left|right; by right].
      * intros y [[=]|Hy]. by apply Hmax.
    + intros Hr. destruct (H2 Hr) as [Hb Hz]. split; [done|].
      intros y [[=]|Hy]. by apply Hz.
Qed.

(** X20.  The fallback extraction reads from the element, among those the
    fixed selectors find, with the longest trimmed text: the element
    chosen has some text and no found element has more.  It reads from
    [document.body] exactly when no selector finds an element with text. *)
Theorem fallback_element_has_most_text (found : list (option Element)) :
  (forall e, fallbackElement found = Some e ->
     In (Some e) found /\ (0 < textLength e)%nat
     /\ forall x, In (Some x) found -> (textLength x <= textLength e)%nat)
  /\ (fallbackElement found = None <->
      forall x, In (Some x) found -> textLength x = 0%nat).
Proof.
  destruct (fallbackLoop_spec found None 0 ltac:(done) ltac:(done))
    as [H1 H2].
  split; [|split].
  - intros e He. destruct (H1 e He) as (Hp & _ & [Hin|Hin] & Hmax); [done|].
    by repeat split.
  - intros Hr. by destruct (H2 Hr).
  - intros Hz. destruct (fallbackElement found) as [e|] eqn:E; [|done].
    destruct (H1 e E) as (Hp & _ & [Hin|Hin] & _); [done|].
    specialize (Hz e Hin). lia.
Qed.

Lemma fallback_element_has_most_text_witness :
  In (Some (mkElement 900 5 0 6))
     [None; Some (mkElement 40 0 0 1); Some (mkElement 900 5 0 6);
      Some (mkElement 900 2 0 3)]
  /\ (0 < 900)%nat
  /\ forall x,
       In (Some x)
          [None; Some (mkElement 40 0 0 1); Some (mkElement 900 5 0 6);
           Some (mkElement 900 2 0 3)] ->
       (textLength x <= 900)%nat.
Proof.
  destruct (fallback_element_has_most_text
              [None; Some (mkElement 40 0 0 1); Some (mkElement 900 5 0 6);
               Some (mkElement 900 2 0 3)]) as [H _].
  apply (H (mkElement 900 5 0 6)). vm_compute. reflexivity.
Defined.

Lemma titleLoop_spec titles title :
  titleLoop titles = Some title ->
  (exists raw, In (Some raw) titles /\ title = trim raw)
  /\ (0 < length title)%nat /\ (length title < 200)%nat.
Proof.
  induction titles as [|[raw|] titles IH]; simpl; [done| |].
  - destruct ((0 <? length (trim raw))%nat
              && (length (trim raw) <? 200)%nat) eqn:E.
    + intros [= <-]. apply andb_true_iff in E as [E1 E2].
      apply Nat.ltb_lt in E1. apply Nat.ltb_lt in E2.
      split; [exists raw; split; [by left|done]|done].
    + intros H. destruct (IH H) as ((r & Hr & ->) & ?).
      split; [exists r; split; [by right|done]|done].
  - intros H. destruct (IH H) as ((r & Hr & ->) & ?).
    split; [exists r; split; [by right|done]|done].
Qed.

(** X21.  [_extractTitle] never returns an empty title.  A title taken
    from the page's elements is the trimmed text of one of them and is
    shorter than 200 characters; when no element gives such a text, the
    result is [document.title] (whatever its length) or, when that is
    empty, "Web Page". *)
Theorem title_never_empty (titles : list (option jsstring))
    (documentTitle : jsstring) :
  _extractTitle titles documentTitle <> []
  /\ ((exists raw, In (Some raw) titles
                   /\ _extractTitle titles documentTitle = trim raw
                   /\ (length (trim raw) < 200)%nat)
      \/ (titleLoop titles = None
          /\ _extractTitle titles documentTitle
             = if truthy documentTitle then documentTitle
               else lit "Web Page")).
Proof.
  unfold _extractTitle.
  destruct (titleLoop titles) as [title|] eqn:E.
  - destruct (titleLoop_spec titles title E) as ((raw & Hraw & ->) & Hp & Hlt).
    split; [intros Heq; rewrite Heq in Hp; simpl in Hp; lia|].
    left. by exists raw.
  - split; [by destruct documentTitle|]. by right.
Qed.

End ContentScore.
